(** * my-vue-fetch: the [useCustomFetch] middleware layer

    A shallow embedding of [useCustomFetch.ts] (the current module and the
    older copy that only has the before-request chain) and of the schema
    declared in [posts.api.ts].

    Conventions of the embedding:
    - a JavaScript string is a [string] holding its UTF-8 bytes;
    - a JavaScript number is abstract (class [JSNumber]): the development
      never looks inside one, it only asks for its [toString], its
      truthiness and its JSON text, so IEEE doubles are an instance;
    - a plain object is the list that [Object.entries] returns for it
      (own enumerable string keys, in enumeration order); request headers,
      which are only read and written by key, are a [gmap];
    - exceptions are the [Throw] case of [Completion]; console output and
      calls of [ctx.cancel] are recorded as a trace of [Effect]s. *)

From Stdlib Require Import ZArith NArith String Ascii List Bool Lia DecimalString.
From stdpp Require Import base option list strings gmap.
Import ListNotations.

Local Open Scope string_scope.
Local Open Scope list_scope.

(** ** JavaScript values *)

Class JSNumber (num : Type) := {
  (** [Number.prototype.toString.call(n)] *)
  num_toString : num -> string;
  (** [ToBoolean(n)]: false for [+0], [-0] and [NaN] *)
  num_truthy : num -> bool;
  (** the text [JSON.stringify(n)] gives: ["null"] for non-finite numbers *)
  num_toJSON : num -> string
}.

(** Integers are numbers; the closed examples use this instance. *)
Definition Z_toString (z : Z) : string :=
  match z with
  | Z0 => "0"
  | Zpos p => NilEmpty.string_of_uint (Pos.to_uint p)
  | Zneg p => "-" +:+ NilEmpty.string_of_uint (Pos.to_uint p)
  end.

#[export] Instance Z_JSNumber : JSNumber Z := {
  num_toString := Z_toString;
  num_truthy := fun z => negb (Z.eqb z 0);
  num_toJSON := Z_toString
}.

Inductive Exception : Type :=
| TypeError (message : string)
| SyntaxError (message : string).

(** The result of evaluating an expression that may throw. *)
Inductive Completion (A : Type) : Type :=
| Normal (value : A)
| Throw (exn : Exception).
Arguments Normal {A} value.
Arguments Throw {A} exn.

#[export] Instance Completion_ret : MRet Completion := fun A a => Normal a.
#[export] Instance Completion_bind : MBind Completion := fun A B f c =>
  match c with
  | Normal a => f a
  | Throw e => Throw e
  end.

Section Values.
Context {num : Type} {NumOps : JSNumber num}.

#[warnings="-register-all"]
Inductive JSValue : Type :=
| JSUndefined
| JSNull
| JSBool (b : bool)
| JSNum (n : num)
| JSString (s : string)
| JSArray (elements : list JSValue)
| JSObject (properties : list (string * JSValue)).

(** A [Record<string, T>]: the entries of the object. *)
Definition JSRecord : Type := list (string * JSValue).

Definition Object_entries (obj : JSRecord) : list (string * JSValue) := obj.
Definition Object_fromEntries (entries : list (string * JSValue)) : JSRecord := entries.
Definition Object_keys (obj : JSRecord) : list string := map fst obj.

(** [ToBoolean], the test of [if (value)] and of [!value]. *)
Definition ToBoolean (v : JSValue) : bool :=
  match v with
  | JSUndefined | JSNull => false
  | JSBool b => b
  | JSNum n => num_truthy n
  | JSString s => negb (String.eqb s EmptyString)
  | JSArray _ | JSObject _ => true
  end.

Fixpoint join (sep : string) (parts : list string) : string :=
  match parts with
  | [] => EmptyString
  | [p] => p
  | p :: rest => p +:+ sep +:+ join sep rest
  end.

(** [ToString]: an array prints as [join(",")], where [null] and
    [undefined] elements print as nothing; a plain object prints as
    ["[object Object]"]. *)
Fixpoint ToString (v : JSValue) : string :=
  match v with
  | JSUndefined => "undefined"
  | JSNull => "null"
  | JSBool true => "true"
  | JSBool false => "false"
  | JSNum n => num_toString n
  | JSString s => s
  | JSArray elements =>
      join "," (map (fun el => match el with
                               | JSUndefined | JSNull => EmptyString
                               | _ => ToString el
                               end) elements)
  | JSObject _ => "[object Object]"
  end.

(** The method call [v.toString()]: reading a property of [null] or
    [undefined] throws. *)
Definition toString (v : JSValue) : Completion string :=
  match v with
  | JSUndefined => Throw (TypeError "Cannot read properties of undefined (reading 'toString')")
  | JSNull => Throw (TypeError "Cannot read properties of null (reading 'toString')")
  | _ => Normal (ToString v)
  end.

(** ** [URLSearchParams] *)

Definition hex_digit (n : N) : ascii :=
  if (n <? 10)%N then ascii_of_N (48 + n) else ascii_of_N (55 + n).

Definition percent_encode_byte (c : ascii) : string :=
  let n := N_of_ascii c in
  String "%" (String (hex_digit (n / 16)) (String (hex_digit (n mod 16)) EmptyString)).

(** The bytes the [application/x-www-form-urlencoded] serializer leaves as
    they are: ASCII letters and digits, [*], [-], [.] and [_]. *)
Definition urlencoded_unreserved (c : ascii) : bool :=
  let n := N_of_ascii c in
  ((48 <=? n) && (n <=? 57) || (65 <=? n) && (n <=? 90) || (97 <=? n) && (n <=? 122)
   || (n =? 42) || (n =? 45) || (n =? 46) || (n =? 95))%N.

Fixpoint urlencoded_serialize_bytes (s : string) : string :=
  match s with
  | EmptyString => EmptyString
  | String c rest =>
      (if Ascii.eqb c " " then "+"
       else if urlencoded_unreserved c then String c EmptyString
       else percent_encode_byte c) +:+ urlencoded_serialize_bytes rest
  end.

Definition URLSearchParams : Type := list (string * string).

Definition URLSearchParams_new : URLSearchParams := [].

Definition URLSearchParams_append (query : URLSearchParams) (name value : string)
  : URLSearchParams := query ++ [(name, value)].

Definition URLSearchParams_toString (query : URLSearchParams) : string :=
  join "&" (map (fun '(name, value) =>
                   urlencoded_serialize_bytes name +:+ "=" +:+ urlencoded_serialize_bytes value)
                query).

(** ** The query-string serializer (current module) *)

(** [value.forEach(el => query.append(key, el.toString()))] *)
Fixpoint forEach_append (key : string) (value : list JSValue) (query : URLSearchParams)
  : Completion URLSearchParams :=
  match value with
  | [] => Normal query
  | el :: rest =>
      s ← toString el;
      forEach_append key rest (URLSearchParams_append query key s)
  end.

(** The [for (const [key, value] of Object.entries(queryData))] loop; the
    [JSArray] case is the branch taken when [Array.isArray(value)]. *)
Fixpoint generateQueryString_loop (entries : list (string * JSValue)) (query : URLSearchParams)
  : Completion URLSearchParams :=
  match entries with
  | [] => Normal query
  | (key, value) :: rest =>
      match value with
      | JSArray elements =>
          query' ← forEach_append key elements query;
          generateQueryString_loop rest query'
      | _ =>
          if ToBoolean value then
            s ← toString value;
            generateQueryString_loop rest (URLSearchParams_append query key s)
          else generateQueryString_loop rest query
      end
  end.

Definition generateQueryString (queryData : JSRecord) : Completion string :=
  query ← generateQueryString_loop (Object_entries queryData) URLSearchParams_new;
  let queryString := URLSearchParams_toString query in
  Normal (if (0 <? String.length queryString)%nat then "?" +:+ queryString else EmptyString).

End Values.

Arguments JSValue num : clear implicits.
Arguments JSRecord num : clear implicits.

(** ** Schemas, effects and contexts *)

Record ZodIssue : Type := { issue_path : list string; issue_message : string }.
Definition ZodError : Type := list ZodIssue.

(** What running a hook leaves behind besides its result. *)
Inductive Effect : Type :=
| console_group (label style : string)
| console_log (error : ZodError)
| console_groupEnd
| ctx_cancel.

(** A hook body: the effects it performed, and how it completed. *)
Definition Hook (A : Type) : Type := (list Effect * Completion A)%type.

#[export] Instance Hook_ret : MRet Hook := fun A a => ([], Normal a).
#[export] Instance Hook_bind : MBind Hook := fun A B f h =>
  match h with
  | (t1, Normal a) => let '(t2, r) := f a in (t1 ++ t2, r)
  | (t1, Throw e) => (t1, Throw e)
  end.

Definition perform (e : Effect) : Hook unit := ([e], Normal tt).
Definition throw {A : Type} (e : Exception) : Hook A := ([], Throw e).
Definition liftC {A : Type} (c : Completion A) : Hook A := ([], c).

Definition effects {A : Type} (h : Hook A) : list Effect := fst h.
Definition completion {A : Type} (h : Hook A) : Completion A := snd h.

Inductive ApiErrorStatus : Type := TYPE_ERROR | SERVER_ERROR | ABORT_ERROR.

(** The string each member of the enum is initialised with. *)
Definition ApiErrorStatus_value (e : ApiErrorStatus) : string :=
  match e with
  | TYPE_ERROR => "TYPE_ERROR"
  | SERVER_ERROR => "SERVER_ERROR"
  | ABORT_ERROR => "ABORT_ERROR"
  end.

Definition ApiErrorStatus_eqb (a b : ApiErrorStatus) : bool :=
  String.eqb (ApiErrorStatus_value a) (ApiErrorStatus_value b).

(** The part of [RequestInit] the hooks read and write. *)
Record RequestInit : Type := {
  method : string;
  headers : gmap string string;
  body : option string
}.

Record BeforeFetchContext : Type := {
  url : string;
  options : RequestInit
}.

Record Response : Type := {
  ok : bool;
  status : Z
}.

Section Middleware.
Context {num : Type} {NumOps : JSNumber num}.

Inductive SafeParseReturnType : Type :=
| SafeParseSuccess (parsed : JSValue num)
| SafeParseError (error : ZodError).

Definition success (r : SafeParseReturnType) : bool :=
  match r with SafeParseSuccess _ => true | SafeParseError _ => false end.

Record ZodTypeAny : Type := { safeParse : JSValue num -> SafeParseReturnType }.

Record AfterFetchContext : Type := {
  response : Response;
  data : JSValue num
}.

(** The fields [data] and [response] of the error context carry a prefix
    here, the after-response context has the plain names. [response] is
    [null] when no response arrived. *)
Record CustomFetchErrorCtx : Type := {
  err_data : JSValue num;
  err_response : option Response;
  error : ApiErrorStatus
}.

(** The options of one call; [None] is an option left out. [query] and
    [json] are the mappings [toValue] unwraps. *)
Record UseCustomFetchOptions : Type := {
  isBearerTokenRequired : option bool;
  query : option (JSRecord num);
  json : option (JSRecord num);
  responseSchema : option ZodTypeAny;
  errorResponseSchema : option ZodTypeAny
}.

(** ** [JSON.stringify] and the body cleaner *)

Definition hex_digit_lower (n : N) : ascii :=
  if (n <? 10)%N then ascii_of_N (48 + n) else ascii_of_N (87 + n).

(** [QuoteJSONString], one byte at a time: the quote, the backslash and
    the control characters are escaped. *)
Definition QuoteJSONChar (c : ascii) : string :=
  let n := N_of_ascii c in
  if (n =? 34)%N then String "\" (String c EmptyString)
  else if (n =? 92)%N then "\\"
  else if (n =? 8)%N then "\b"
  else if (n =? 9)%N then "\t"
  else if (n =? 10)%N then "\n"
  else if (n =? 12)%N then "\f"
  else if (n =? 13)%N then "\r"
  else if (n <? 32)%N then
    "\u00" +:+ String (hex_digit_lower (n / 16)) (String (hex_digit_lower (n mod 16)) EmptyString)
  else String c EmptyString.

Fixpoint QuoteJSONString_body (s : string) : string :=
  match s with
  | EmptyString => EmptyString
  | String c rest => QuoteJSONChar c +:+ QuoteJSONString_body rest
  end.

Definition double_quote : string := String (ascii_of_N 34) EmptyString.

Definition QuoteJSONString (s : string) : string :=
  double_quote +:+ QuoteJSONString_body s +:+ double_quote.

(** [JSON.stringify(v)]; [None] is the result [undefined]. An [undefined]
    array element prints as [null], an [undefined] property is left out. *)
Fixpoint JSON_stringify (v : JSValue num) : option string :=
  match v with
  | JSUndefined => None
  | JSNull => Some "null"
  | JSBool true => Some "true"
  | JSBool false => Some "false"
  | JSNum n => Some (num_toJSON n)
  | JSString s => Some (QuoteJSONString s)
  | JSArray elements =>
      Some ("[" +:+ join "," (map (fun el => default "null" (JSON_stringify el)) elements) +:+ "]")
  | JSObject properties =>
      Some ("{" +:+
            join "," (omap (fun kv => (fun s => QuoteJSONString (fst kv) +:+ ":" +:+ s)
                                        <$> JSON_stringify (snd kv)) properties)
            +:+ "}")
  end.

Definition is_empty_string (v : JSValue num) : bool :=
  match v with JSString EmptyString => true | _ => false end.
Definition is_undefined (v : JSValue num) : bool :=
  match v with JSUndefined => true | _ => false end.
Definition is_null (v : JSValue num) : bool :=
  match v with JSNull => true | _ => false end.

Definition removeNullishInObject (obj : JSRecord num) : JSRecord num :=
  Object_fromEntries
    (List.filter (fun '(_, v) => negb (is_empty_string v) && negb (is_undefined v) && negb (is_null v))
                 (Object_entries obj)).

End Middleware.

Arguments SafeParseReturnType num : clear implicits.
Arguments ZodTypeAny num : clear implicits.
Arguments AfterFetchContext num : clear implicits.
Arguments CustomFetchErrorCtx num : clear implicits.
Arguments UseCustomFetchOptions num : clear implicits.

(** ** The three hook chains (current module) *)

Section Hooks.
Context {num : Type} {NumOps : JSNumber num}.

(** [import.meta.env.MODE] *)
Variable MODE : string.

(** [JSON.parse], a host function: [None] stands for the [SyntaxError] it
    throws on a text that is not JSON. *)
Variable JSON_parse : string -> option (JSValue num).

Definition JSON_parse_call (text : string) : Hook (JSValue num) :=
  match JSON_parse text with
  | Some v => mret v
  | None => throw (SyntaxError "Unexpected token in JSON")
  end.

Definition set_url (ctx : BeforeFetchContext) (u : string) : BeforeFetchContext :=
  {| url := u; options := options ctx |}.

Definition set_headers (ctx : BeforeFetchContext) (h : gmap string string) : BeforeFetchContext :=
  {| url := url ctx;
     options := {| method := method (options ctx); headers := h; body := body (options ctx) |} |}.

Definition set_body (ctx : BeforeFetchContext) (b : option string) : BeforeFetchContext :=
  {| url := url ctx;
     options := {| method := method (options ctx); headers := headers (options ctx); body := b |} |}.

Definition noActionContext {T : Type} (ctx : T) : Hook T := mret ctx.

(** [fnList.reduce((acc, fn) => fn(acc), ctx)]: a step that throws ends
    the fold. *)
Fixpoint fetchCurryFn {T : Type} (ctx : T) (fnList : list (T -> Hook T)) : Hook T :=
  match fnList with
  | [] => mret ctx
  | fn :: rest => acc ← fn ctx; fetchCurryFn acc rest
  end.

(** *** beforeFetch *)

(** [getAuthorizationBeforeFetch] with the value bound to its local
    [token] left open: the source marks the binding as the place where the
    token is read from the auth store or localStorage. *)
Definition getAuthorizationBeforeFetchWith (token : JSValue num)
    (isBearerTokenRequired : option bool) : BeforeFetchContext -> Hook BeforeFetchContext :=
  if negb (default false isBearerTokenRequired) then noActionContext
  else fun ctx =>
    if negb (ToBoolean token) then
      _ ← perform ctx_cancel;
      mret ctx
    else
      mret (set_headers ctx
              (<["Authorization" := "Bearer " +:+ ToString token]> (headers (options ctx)))).

(** [const token = "<token>";], the binding the source has today. *)
Definition token : JSValue num := JSString "<token>".

Definition getAuthorizationBeforeFetch (isBearerTokenRequired : option bool)
  : BeforeFetchContext -> Hook BeforeFetchContext :=
  getAuthorizationBeforeFetchWith token isBearerTokenRequired.

Definition getQueryBeforeFetch (query : option (JSRecord num))
  : BeforeFetchContext -> Hook BeforeFetchContext :=
  match query with
  | None => noActionContext
  | Some currentQuery =>
      if (length (Object_keys currentQuery) =? 0)%nat then noActionContext
      else fun ctx =>
        qs ← liftC (generateQueryString currentQuery);
        mret (set_url ctx (url ctx +:+ qs))
  end.

Definition getJsonFormatBeforeFetch (jsonInput : option (JSRecord num))
  : BeforeFetchContext -> Hook BeforeFetchContext :=
  match jsonInput with
  | None => noActionContext
  | Some currentRawData => fun ctx =>
      let ctx1 := set_headers ctx (<["Content-Type" := "application/json"]> (headers (options ctx))) in
      mret (set_body ctx1 (JSON_stringify (JSObject (removeNullishInObject currentRawData))))
  end.

Definition getBeforeFetchWith (token : JSValue num) (options : UseCustomFetchOptions num)
  : BeforeFetchContext -> Hook BeforeFetchContext :=
  fun ctx =>
    fetchCurryFn ctx [getAuthorizationBeforeFetchWith token (isBearerTokenRequired options);
                      getQueryBeforeFetch (query options);
                      getJsonFormatBeforeFetch (json options)].

Definition getBeforeFetch (options : UseCustomFetchOptions num)
  : BeforeFetchContext -> Hook BeforeFetchContext :=
  getBeforeFetchWith token options.

(** *** afterFetch *)

(** The block the three validation steps share: outside production, the
    [ZodError] is printed inside a console group with the step's label. *)
Definition log_type_error (label : string) (err : ZodError) : Hook unit :=
  if negb (String.eqb MODE "production") then
    _ ← perform (console_group label "color: yellow;");
    _ ← perform (console_log err);
    perform console_groupEnd
  else mret tt.

Definition errorSchemaAfterFetch (errorResponseSchema : option (ZodTypeAny num))
  : AfterFetchContext num -> Hook (AfterFetchContext num) :=
  match errorResponseSchema with
  | None => noActionContext
  | Some schema => fun ctx =>
      if ok (response ctx) then mret ctx
      else
        match safeParse schema (data ctx) with
        | SafeParseError err =>
            _ ← log_type_error "%c [api error] type error" err;
            throw (TypeError (ApiErrorStatus_value TYPE_ERROR))
        | SafeParseSuccess _ => mret ctx
        end
  end.

Definition responseSchemaAfterFetch (responseSchema : option (ZodTypeAny num))
  : AfterFetchContext num -> Hook (AfterFetchContext num) :=
  match responseSchema with
  | None => noActionContext
  | Some schema => fun ctx =>
      if negb (ok (response ctx)) then mret ctx
      else
        match safeParse schema (data ctx) with
        | SafeParseError err =>
            _ ← log_type_error "%c [api response] type error" err;
            throw (TypeError (ApiErrorStatus_value TYPE_ERROR))
        | SafeParseSuccess _ => mret ctx
        end
  end.

Definition getAfterFetch (options : UseCustomFetchOptions num)
  : AfterFetchContext num -> Hook (AfterFetchContext num) :=
  fun ctx =>
    fetchCurryFn ctx [responseSchemaAfterFetch (responseSchema options);
                      errorSchemaAfterFetch (errorResponseSchema options)].

(** *** onFetchError *)

Definition typeErrorOnFetchError : CustomFetchErrorCtx num -> Hook (CustomFetchErrorCtx num) :=
  fun ctx =>
    if ApiErrorStatus_eqb (error ctx) TYPE_ERROR then mret ctx
    else mret ctx.

Definition timeOutErrorOnFetchError : CustomFetchErrorCtx num -> Hook (CustomFetchErrorCtx num) :=
  fun ctx =>
    if ApiErrorStatus_eqb (error ctx) ABORT_ERROR then mret ctx
    else mret ctx.

Definition responseNullOnFetchError : CustomFetchErrorCtx num -> Hook (CustomFetchErrorCtx num) :=
  fun ctx =>
    match err_response ctx with
    | None => mret ctx
    | Some _ => mret ctx
    end.

Definition errorSchemaOnFetchError (errorResponseSchema : option (ZodTypeAny num))
  : CustomFetchErrorCtx num -> Hook (CustomFetchErrorCtx num) :=
  match errorResponseSchema with
  | None => noActionContext
  | Some schema => fun ctx =>
      responseData ← match err_data ctx with
                     | JSString text => JSON_parse_call text
                     | other => mret other
                     end;
      match safeParse schema responseData with
      | SafeParseError err =>
          _ ← log_type_error "%c [api error] type error" err;
          mret ctx
      | SafeParseSuccess _ => mret ctx
      end
  end.

Definition getOnFetchError (options : UseCustomFetchOptions num)
  : CustomFetchErrorCtx num -> Hook (CustomFetchErrorCtx num) :=
  fun ctx =>
    fetchCurryFn ctx [typeErrorOnFetchError;
                      timeOutErrorOnFetchError;
                      responseNullOnFetchError;
                      errorSchemaOnFetchError (errorResponseSchema options)].

End Hooks.

(** ** The older copy of the module

    It has the before-request chain only; its serializer is typed over
    [Record<string, any>]. *)

Module Legacy.
Section OlderModule.
Context {num : Type} {NumOps : JSNumber num}.

Fixpoint forEach_append (key : string) (value : list (JSValue num)) (query : URLSearchParams)
  : Completion URLSearchParams :=
  match value with
  | [] => Normal query
  | el :: rest =>
      s ← toString el;
      forEach_append key rest (URLSearchParams_append query key s)
  end.

Fixpoint generateQueryString_loop (entries : list (string * JSValue num))
    (query : URLSearchParams) : Completion URLSearchParams :=
  match entries with
  | [] => Normal query
  | (key, value) :: rest =>
      match value with
      | JSArray elements =>
          query' ← forEach_append key elements query;
          generateQueryString_loop rest query'
      | _ =>
          if ToBoolean value then
            s ← toString value;
            generateQueryString_loop rest (URLSearchParams_append query key s)
          else generateQueryString_loop rest query
      end
  end.

Definition generateQueryString (queryData : JSRecord num) : Completion string :=
  query ← generateQueryString_loop (Object_entries queryData) URLSearchParams_new;
  let queryString := URLSearchParams_toString query in
  Normal (if (0 <? String.length queryString)%nat then "?" +:+ queryString else EmptyString).

(** The options of the older module: no schemas yet. *)
Record UseCustomFetchOptions : Type := {
  isBearerTokenRequired : option bool;
  query : option (JSRecord num);
  json : option (JSRecord num)
}.

Definition noActionContext (ctx : BeforeFetchContext) : Hook BeforeFetchContext := mret ctx.

Fixpoint fetchCurryFn (ctx : BeforeFetchContext)
    (fnList : list (BeforeFetchContext -> Hook BeforeFetchContext)) : Hook BeforeFetchContext :=
  match fnList with
  | [] => mret ctx
  | fn :: rest => acc ← fn ctx; fetchCurryFn acc rest
  end.

Definition getAuthorizationBeforeFetch (isBearerTokenRequired : option bool)
  : BeforeFetchContext -> Hook BeforeFetchContext :=
  if negb (default false isBearerTokenRequired) then noActionContext
  else fun ctx =>
    let token : JSValue num := JSString "<token>" in
    if negb (ToBoolean token) then
      _ ← perform ctx_cancel;
      mret ctx
    else
      mret (set_headers ctx
              (<["Authorization" := "Bearer " +:+ ToString token]>
                 (headers (options ctx)))).

(** The older step serializes whatever mapping it is given; the guard on
    a mapping without keys came with the current module. *)
Definition getQueryBeforeFetch (query : option (JSRecord num))
  : BeforeFetchContext -> Hook BeforeFetchContext :=
  match query with
  | None => noActionContext
  | Some currentQuery => fun ctx =>
      qs ← liftC (generateQueryString currentQuery);
      mret (set_url ctx (url ctx +:+ qs))
  end.

Definition getBeforeFetch (options : UseCustomFetchOptions)
  : BeforeFetchContext -> Hook BeforeFetchContext :=
  fun ctx =>
    fetchCurryFn ctx [getAuthorizationBeforeFetch (isBearerTokenRequired options);
                      getQueryBeforeFetch (query options)].

End OlderModule.

Arguments UseCustomFetchOptions num : clear implicits.
End Legacy.

(** ** The schema of [posts.api.ts]

    [zod.object({ id: zod.string(), title: zod.string(), views: zod.number() })]
    over integer numbers: an object schema reads its own keys, reports a
    missing key as [Required], and strips the keys it does not know. *)

Definition ZodParsedType (v : JSValue Z) : string :=
  match v with
  | JSUndefined => "undefined"
  | JSNull => "null"
  | JSBool _ => "boolean"
  | JSNum _ => "number"
  | JSString _ => "string"
  | JSArray _ => "array"
  | JSObject _ => "object"
  end.

Definition invalid_type (path : list string) (expected : string) (v : JSValue Z) : ZodIssue :=
  {| issue_path := path;
     issue_message := match v with
                      | JSUndefined => "Required"
                      | _ => "Expected " +:+ expected +:+ ", received " +:+ ZodParsedType v
                      end |}.

Definition zod_string (path : list string) (v : JSValue Z) : ZodError :=
  match v with JSString _ => [] | _ => [invalid_type path "string" v] end.

Definition zod_number (path : list string) (v : JSValue Z) : ZodError :=
  match v with JSNum _ => [] | _ => [invalid_type path "number" v] end.

(** [obj[key]] on a plain object. *)
Fixpoint get_property (properties : list (string * JSValue Z)) (key : string) : JSValue Z :=
  match properties with
  | [] => JSUndefined
  | (k, v) :: rest => if String.eqb k key then v else get_property rest key
  end.

Definition postsSchema : ZodTypeAny Z :=
  {| safeParse := fun input =>
       match input with
       | JSObject properties =>
           let id := get_property properties "id" in
           let title := get_property properties "title" in
           let views := get_property properties "views" in
           match zod_string ["id"] id ++ zod_string ["title"] title ++ zod_number ["views"] views with
           | [] => SafeParseSuccess (JSObject [("id", id); ("title", title); ("views", views)])
           | issues => SafeParseError issues
           end
       | other => SafeParseError [invalid_type [] "object" other]
       end |}.

(** ** A [JSON.parse] for the closed examples

    The hook chains are stated for any [JSON.parse]; the examples run them
    with this reader of JSON texts over integer numbers. It follows the
    JSON grammar for white space, literals, strings with the two-character
    escapes, arrays and objects; a text with a fraction, an exponent or a
    [\u] escape is outside this instance and is rejected like a malformed
    one. *)

Definition is_ws (c : ascii) : bool :=
  let n := N_of_ascii c in
  ((n =? 32) || (n =? 9) || (n =? 10) || (n =? 13))%N.

Fixpoint skip_ws (s : string) : string :=
  match s with
  | String c rest => if is_ws c then skip_ws rest else s
  | EmptyString => s
  end.

Fixpoint strip_prefix (p s : string) : option string :=
  match p, s with
  | EmptyString, _ => Some s
  | String a p', String b s' => if Ascii.eqb a b then strip_prefix p' s' else None
  | String _ _, EmptyString => None
  end.

Definition unescape (c : ascii) : option ascii :=
  let n := N_of_ascii c in
  if ((n =? 34) || (n =? 92) || (n =? 47))%N then Some c
  else if (n =? 98)%N then Some (ascii_of_N 8)
  else if (n =? 102)%N then Some (ascii_of_N 12)
  else if (n =? 110)%N then Some (ascii_of_N 10)
  else if (n =? 114)%N then Some (ascii_of_N 13)
  else if (n =? 116)%N then Some (ascii_of_N 9)
  else None.

(** The characters of a string literal after its opening quote, and the
    text after its closing quote. *)
Fixpoint parse_string_body (s : string) : option (string * string) :=
  match s with
  | EmptyString => None
  | String c rest =>
      let n := N_of_ascii c in
      if (n =? 34)%N then Some (EmptyString, rest)
      else if (n =? 92)%N then
        match rest with
        | String e rest' =>
            match unescape e, parse_string_body rest' with
            | Some ch, Some (content, after) => Some (String ch content, after)
            | _, _ => None
            end
        | EmptyString => None
        end
      else if (n <? 32)%N then None
      else
        match parse_string_body rest with
        | Some (content, after) => Some (String c content, after)
        | None => None
        end
  end.

Definition digit_value (c : ascii) : option Z :=
  let n := N_of_ascii c in
  if ((48 <=? n) && (n <=? 57))%N then Some (Z.of_N (n - 48)) else None.

Fixpoint parse_digits (s : string) (acc : Z) : Z * string :=
  match s with
  | String c rest =>
      match digit_value c with
      | Some d => parse_digits rest (10 * acc + d)
      | None => (acc, s)
      end
  | EmptyString => (acc, s)
  end.

(** An integer literal: [0], or a non-zero digit followed by digits. *)
Definition parse_int (s : string) : option (Z * string) :=
  match s with
  | String c rest =>
      match digit_value c with
      | Some 0%Z => Some (0%Z, rest)
      | Some d => Some (parse_digits rest d)
      | None => None
      end
  | EmptyString => None
  end.

Definition starts_fraction_or_exponent (s : string) : bool :=
  match s with
  | String c _ => let n := N_of_ascii c in ((n =? 46) || (n =? 101) || (n =? 69))%N
  | EmptyString => false
  end.

Definition parse_number (s : string) : option (JSValue Z * string) :=
  let '(negative, digits) :=
    match s with
    | String "-" rest => (true, rest)
    | _ => (false, s)
    end in
  match parse_int digits with
  | Some (z, after) =>
      if starts_fraction_or_exponent after then None
      else Some (JSNum (if negative then (- z)%Z else z), after)
  | None => None
  end.

(** [obj[key] = v] while an object literal is read: a repeated key keeps
    its place and takes the later value. *)
Fixpoint set_property (properties : list (string * JSValue Z)) (key : string) (v : JSValue Z)
  : list (string * JSValue Z) :=
  match properties with
  | [] => [(key, v)]
  | (k, old) :: rest =>
      if String.eqb k key then (k, v) :: rest else (k, old) :: set_property rest key v
  end.

Fixpoint parse_value (fuel : nat) (s : string) : option (JSValue Z * string) :=
  match fuel with
  | O => None
  | S fuel' =>
      match skip_ws s with
      | String c rest as text =>
          let n := N_of_ascii c in
          if (n =? 34)%N then
            match parse_string_body rest with
            | Some (content, after) => Some (JSString content, after)
            | None => None
            end
          else if (n =? 91)%N then
            match skip_ws rest with
            | String "]" after => Some (JSArray [], after)
            | _ =>
                match parse_elements fuel' rest with
                | Some (elements, after) => Some (JSArray elements, after)
                | None => None
                end
            end
          else if (n =? 123)%N then
            match skip_ws rest with
            | String "}" after => Some (JSObject [], after)
            | _ =>
                match parse_members fuel' rest [] with
                | Some (properties, after) => Some (JSObject properties, after)
                | None => None
                end
            end
          else if (n =? 110)%N then
            match strip_prefix "null" text with
            | Some after => Some (JSNull, after)
            | None => None
            end
          else if (n =? 116)%N then
            match strip_prefix "true" text with
            | Some after => Some (JSBool true, after)
            | None => None
            end
          else if (n =? 102)%N then
            match strip_prefix "false" text with
            | Some after => Some (JSBool false, after)
            | None => None
            end
          else parse_number text
      | EmptyString => None
      end
  end
with parse_elements (fuel : nat) (s : string) : option (list (JSValue Z) * string) :=
  match fuel with
  | O => None
  | S fuel' =>
      match parse_value fuel' s with
      | Some (v, after) =>
          match skip_ws after with
          | String "," rest =>
              match parse_elements fuel' rest with
              | Some (vs, after') => Some (v :: vs, after')
              | None => None
              end
          | String "]" rest => Some ([v], rest)
          | _ => None
          end
      | None => None
      end
  end
with parse_members (fuel : nat) (s : string) (acc : list (string * JSValue Z))
  : option (list (string * JSValue Z) * string) :=
  match fuel with
  | O => None
  | S fuel' =>
      match skip_ws s with
      | String q rest =>
          if (N_of_ascii q =? 34)%N then
            match parse_string_body rest with
            | Some (key, after) =>
                match skip_ws after with
                | String ":" rest' =>
                    match parse_value fuel' rest' with
                    | Some (v, after') =>
                        let acc' := set_property acc key v in
                        match skip_ws after' with
                        | String "," rest'' => parse_members fuel' rest'' acc'
                        | String "}" rest'' => Some (acc', rest'')
                        | _ => None
                        end
                    | None => None
                    end
                | _ => None
                end
            | None => None
            end
          else None
      | EmptyString => None
      end
  end.

Definition JSON_parse_int (text : string) : option (JSValue Z) :=
  match parse_value (2 + String.length text) text with
  | Some (v, after) =>
      match skip_ws after with
      | EmptyString => Some v
      | String _ _ => None
      end
  | None => None
  end.

(** ** Reading a query string back *)

Section QueryStringParser.
Context {num : Type}.

Definition hex_value (c : ascii) : option N :=
  let n := N_of_ascii c in
  if ((48 <=? n) && (n <=? 57))%N then Some (n - 48)%N
  else if ((65 <=? n) && (n <=? 70))%N then Some (n - 55)%N
  else if ((97 <=? n) && (n <=? 102))%N then Some (n - 87)%N
  else None.

Fixpoint percent_decode (s : string) : string :=
  match s with
  | EmptyString => EmptyString
  | String c rest =>
      if Ascii.eqb c "%" then
        match rest with
        | String h (String l rest') =>
            match hex_value h, hex_value l with
            | Some a, Some b => String (ascii_of_N (16 * a + b)) (percent_decode rest')
            | _, _ => String c (percent_decode rest)
            end
        | _ => String c (percent_decode rest)
        end
      else String c (percent_decode rest)
  end.

Fixpoint plus_to_space (s : string) : string :=
  match s with
  | EmptyString => EmptyString
  | String c rest => String (if Ascii.eqb c "+" then " "%char else c) (plus_to_space rest)
  end.

Fixpoint split_on (sep : ascii) (s : string) : list string :=
  match s with
  | EmptyString => [EmptyString]
  | String c rest =>
      if Ascii.eqb c sep then EmptyString :: split_on sep rest
      else
        match split_on sep rest with
        | first :: others => String c first :: others
        | [] => [String c EmptyString]
        end
  end.

(** The text before the first [sep] and the text after it (empty when
    there is none). *)
Fixpoint split_first (sep : ascii) (s : string) : string * string :=
  match s with
  | EmptyString => (EmptyString, EmptyString)
  | String c rest =>
      if Ascii.eqb c sep then (EmptyString, rest)
      else let '(name, value) := split_first sep rest in (String c name, value)
  end.

Definition urlencoded_decode (s : string) : string := percent_decode (plus_to_space s).

(** [new URLSearchParams(text)]: a leading [?] is dropped, the text is cut
    at every [&], empty pieces are skipped, and each piece is cut at its
    first [=]. *)
Definition URLSearchParams_parse (text : string) : URLSearchParams :=
  let text := match text with
              | String "?" rest => rest
              | _ => text
              end in
  omap (fun piece =>
          match piece with
          | EmptyString => None
          | _ => let '(name, value) := split_first "=" piece in
                 Some (urlencoded_decode name, urlencoded_decode value)
          end)
       (split_on "&" text).

Fixpoint add_parsed (record : JSRecord num) (name value : string) : JSRecord num :=
  match record with
  | [] => [(name, JSString value)]
  | (k, v) :: rest =>
      if String.eqb k name then
        (k, match v with
            | JSArray elements => JSArray (elements ++ [JSString value])
            | other => JSArray [other; JSString value]
            end) :: rest
      else (k, v) :: add_parsed rest name value
  end.

(** Modelled from the spec: the parser of the round-trip property. The
    repository serializes query strings and never parses one, so the
    reader is the platform's own ([URLSearchParams_parse]) followed by the
    grouping the property's expected result shows: a name that occurs once
    maps to its string, a repeated name to the array of its values in
    order of occurrence. *)
Definition parseQueryString (queryString : string) : JSRecord num :=
  fold_left (fun record '(name, value) => add_parsed record name value)
            (URLSearchParams_parse queryString) [].

End QueryStringParser.


(** ** Vocabulary of the statements *)

Section Vocabulary.
Context {num : Type} {NumOps : JSNumber num}.

Definition is_nullish (v : JSValue num) : bool := is_undefined v || is_null v.

(** No array of the mapping holds [null] or [undefined]: what the type
    [Record<string, T | T[]>] with [T extends string | number | boolean]
    promises about arrays, and what [el.toString()] needs. *)
Definition arrays_printable (queryData : JSRecord num) : bool :=
  forallb (fun kv => match snd kv with
                     | JSArray elements => forallb (fun el => negb (is_nullish el)) elements
                     | _ => true
                     end) queryData.

Definition query_printable (options : UseCustomFetchOptions num) : bool :=
  match query options with
  | Some currentQuery => arrays_printable currentQuery
  | None => true
  end.

(** A value that is the empty string, [null] or [undefined]. *)
Definition empty_like (v : JSValue num) : bool :=
  is_empty_string v || is_null v || is_undefined v.

(** [query.getAll(name)] *)
Definition URLSearchParams_getAll (query : URLSearchParams) (name : string) : list string :=
  map snd (List.filter (fun p => String.eqb (fst p) name) query).

(** The parameters one entry of the mapping contributes. *)
Definition params_of_entry (kv : string * JSValue num) : URLSearchParams :=
  match snd kv with
  | JSArray elements => map (fun el => (fst kv, ToString el)) elements
  | v => if ToBoolean v then [(fst kv, ToString v)] else []
  end.

Definition set_error (ctx : CustomFetchErrorCtx num) (e : ApiErrorStatus) : CustomFetchErrorCtx num :=
  {| err_data := err_data ctx; err_response := err_response ctx; error := e |}.

Definition Hook_map {A B : Type} (f : A -> B) (h : Hook A) : Hook B :=
  (effects h, match completion h with
              | Normal a => Normal (f a)
              | Throw e => Throw e
              end).

(** What [log_type_error] leaves on the console in a given mode. *)
Definition type_error_log (MODE label : string) (err : ZodError) : list Effect :=
  if String.eqb MODE "production" then []
  else [console_group label "color: yellow;"; console_log err; console_groupEnd].

(** The value the error-schema step of the error hook validates. *)
Definition parsed_error_data (JSON_parse : string -> option (JSValue num))
    (ctx : CustomFetchErrorCtx num) : option (JSValue num) :=
  match err_data ctx with
  | JSString text => JSON_parse text
  | other => Some other
  end.

Fixpoint string_forallb (p : ascii -> bool) (s : string) : bool :=
  match s with
  | EmptyString => true
  | String c rest => p c && string_forallb p rest
  end.

(** A byte that cuts a query string: [&] between parameters, [=] between
    a name and its value. *)
Definition is_separator (c : ascii) : bool := Ascii.eqb c "&" || Ascii.eqb c "=".

(** The query string [generateQueryString] makes of the parameters it
    collected. *)
Definition query_string_of (query : URLSearchParams) : string :=
  match query with
  | [] => EmptyString
  | _ :: _ => "?" +:+ URLSearchParams_toString query
  end.

(** A value that a query string can carry back: a non-empty string, or an
    array of two or more strings. *)
Definition reads_back (v : JSValue num) : bool :=
  match v with
  | JSString s => negb (String.eqb s EmptyString)
  | JSArray (JSString _ :: JSString _ :: rest) =>
      forallb (fun el => match el with JSString _ => true | _ => false end) rest
  | _ => false
  end.

(** One parameter of the serialized text, as the serializer writes it. *)
Definition piece_of (p : string * string) : string :=
  let '(name, value) := p in
  urlencoded_serialize_bytes name +:+ "=" +:+ urlencoded_serialize_bytes value.

(** The exceptions of [el.toString()]. *)
Definition property_read_error (e : Exception) : Prop :=
  e = TypeError "Cannot read properties of undefined (reading 'toString')" \/
  e = TypeError "Cannot read properties of null (reading 'toString')".

End Vocabulary.

(** The options and contexts of the closed examples. *)

Definition get_request (u : string) : BeforeFetchContext :=
  {| url := u; options := {| method := "GET"; headers := ∅; body := None |} |}.

Definition sample_query : JSRecord Z :=
  [("a", JSString "1"); ("b", JSArray [JSString "2"; JSString "3"])].

(** The options of a call that asks for the bearer token and sends the
    sample query. *)
Definition bearer_options : UseCustomFetchOptions Z :=
  {| isBearerTokenRequired := Some true; query := Some sample_query; json := None;
     responseSchema := None; errorResponseSchema := None |}.

(** The options of a call that declares [postsSchema] for both kinds of
    response, and a [404] whose body is not a post. *)
Definition error_options : UseCustomFetchOptions Z :=
  {| isBearerTokenRequired := None; query := None; json := None;
     responseSchema := Some postsSchema; errorResponseSchema := Some postsSchema |}.

Definition not_found_body : JSValue Z := JSObject [("message", JSString "Not Found")].

Definition not_found_ctx : AfterFetchContext Z :=
  {| response := {| ok := false; status := 404 |}; data := not_found_body |}.

Definition missing_fields : ZodError :=
  [ {| issue_path := ["id"]; issue_message := "Required" |};
    {| issue_path := ["title"]; issue_message := "Required" |};
    {| issue_path := ["views"]; issue_message := "Required" |} ].

(** The same [404] as the error hook sees it when the body was read as
    text, and a [502] whose body is an HTML page. *)
Definition not_found_text : string :=
  "{" +:+ double_quote +:+ "message" +:+ double_quote +:+ ":"
  +:+ double_quote +:+ "Not Found" +:+ double_quote +:+ "}".

Definition not_found_error_ctx : CustomFetchErrorCtx Z :=
  {| err_data := JSString not_found_text;
     err_response := Some {| ok := false; status := 404 |};
     error := TYPE_ERROR |}.

Definition bad_gateway_ctx : CustomFetchErrorCtx Z :=
  {| err_data := JSString "<html>Bad Gateway</html>";
     err_response := Some {| ok := false; status := 502 |};
     error := SERVER_ERROR |}.

(** ** [useApi] and the posts module *)

Section UseApi.
Context {num : Type} {NumOps : JSNumber num}.

(** [import.meta.env.VITE_APP_API] and [import.meta.env.MODE] *)
Variable VITE_APP_API : string.
Variable MODE : string.
Variable JSON_parse : string -> option (JSValue num).

(** The configuration [useApi] hands to [createFetch]. *)
Record CreateFetchOptions : Type := {
  baseUrl : string;
  timeout : Z;
  immediate : bool;
  beforeFetch : BeforeFetchContext -> Hook BeforeFetchContext;
  afterFetch : AfterFetchContext num -> Hook (AfterFetchContext num);
  onFetchError : CustomFetchErrorCtx num -> Hook (CustomFetchErrorCtx num);
  mode : string
}.

Definition useApi (options : UseCustomFetchOptions num) : CreateFetchOptions :=
  {| baseUrl := VITE_APP_API;
     timeout := 30000;
     immediate := false;
     beforeFetch := getBeforeFetch options;
     afterFetch := getAfterFetch MODE options;
     onFetchError := getOnFetchError MODE JSON_parse options;
     mode := "cors" |}.

End UseApi.

Arguments CreateFetchOptions num : clear implicits.

(** [schema.array()]: the input has to be an array, every item is parsed
    with [schema], and the issues of an item are reported under its index
    (printed here, since an issue path is a list of strings). *)
Definition at_index (index : nat) (issue : ZodIssue) : ZodIssue :=
  {| issue_path := Z_toString (Z.of_nat index) :: issue_path issue;
     issue_message := issue_message issue |}.

(** The parsed items, the issues, and whether every item was accepted. *)
Fixpoint zod_array_items (schema : ZodTypeAny Z) (items : list (JSValue Z)) (index : nat)
  : list (JSValue Z) * ZodError * bool :=
  match items with
  | [] => ([], [], true)
  | item :: rest =>
      let '(parsed_rest, issues_rest, valid_rest) := zod_array_items schema rest (S index) in
      match safeParse schema item with
      | SafeParseSuccess parsed => (parsed :: parsed_rest, issues_rest, valid_rest)
      | SafeParseError issues =>
          (parsed_rest, map (at_index index) issues ++ issues_rest, false)
      end
  end.

Definition zod_array (schema : ZodTypeAny Z) : ZodTypeAny Z :=
  {| safeParse := fun input =>
       match input with
       | JSArray items =>
           match zod_array_items schema items 0 with
           | (parsed, _, true) => SafeParseSuccess (JSArray parsed)
           | (_, issues, false) => SafeParseError issues
           end
       | other => SafeParseError [invalid_type [] "array" other]
       end |}.

(** What [deletePosts] prints before it builds its request. *)
Inductive ConsoleCall : Type :=
| Console_group (label style : string)
| Console_log (value : string)
| Console_groupEnd.

(** A call [useApi(options)(url).verb().json()]: the configuration, the
    URL, the verb and the way the response body is read. *)
Record UseFetchCall : Type := {
  fetch_config : CreateFetchOptions Z;
  fetch_url : string;
  fetch_method : string;
  fetch_type : string
}.

Section PostsApi.
Variable VITE_APP_API : string.
Variable MODE : string.
Variable JSON_parse : string -> option (JSValue Z).

Definition getPosts : UseFetchCall :=
  {| fetch_config := useApi VITE_APP_API MODE JSON_parse
                       {| isBearerTokenRequired := None; query := None; json := None;
                          responseSchema := Some (zod_array postsSchema);
                          errorResponseSchema := None |};
     fetch_url := "/posts"; fetch_method := "GET"; fetch_type := "json" |}.

Definition getPost (id : string) : UseFetchCall :=
  {| fetch_config := useApi VITE_APP_API MODE JSON_parse
                       {| isBearerTokenRequired := None; query := None; json := None;
                          responseSchema := Some postsSchema;
                          errorResponseSchema := None |};
     fetch_url := "/posts/" +:+ id; fetch_method := "GET"; fetch_type := "json" |}.

Definition postPosts (newPosts : JSRecord Z) : UseFetchCall :=
  {| fetch_config := useApi VITE_APP_API MODE JSON_parse
                       {| isBearerTokenRequired := None; query := None; json := Some newPosts;
                          responseSchema := Some postsSchema;
                          errorResponseSchema := None |};
     fetch_url := "/posts"; fetch_method := "POST"; fetch_type := "json" |}.

Definition updatePosts (id : string) (updatePosts : JSRecord Z) : UseFetchCall :=
  {| fetch_config := useApi VITE_APP_API MODE JSON_parse
                       {| isBearerTokenRequired := None; query := None; json := Some updatePosts;
                          responseSchema := Some postsSchema;
                          errorResponseSchema := None |};
     fetch_url := "/posts/" +:+ id; fetch_method := "PATCH"; fetch_type := "json" |}.

Definition deletePosts (id : string) : list ConsoleCall * UseFetchCall :=
  ([Console_group "%c test" "color: yellow;"; Console_log id; Console_groupEnd],
   {| fetch_config := useApi VITE_APP_API MODE JSON_parse
                        {| isBearerTokenRequired := None; query := None; json := None;
                           responseSchema := Some postsSchema;
                           errorResponseSchema := None |};
      fetch_url := "/posts/" +:+ id; fetch_method := "DELETE"; fetch_type := "json" |}).

End PostsApi.

(** ** Vocabulary of the further statements *)

Section FurtherVocabulary.
Context {num : Type} {NumOps : JSNumber num}.

(** The entries the serializer looks at: arrays and truthy scalars. *)
Definition drop_falsy (queryData : JSRecord num) : JSRecord num :=
  List.filter (fun kv => ToBoolean (snd kv)) queryData.

(** The bytes a query string is made of. *)
Definition query_byte (c : ascii) : bool :=
  urlencoded_unreserved c || Ascii.eqb c "+" || Ascii.eqb c "%"
  || Ascii.eqb c "&" || Ascii.eqb c "=" || Ascii.eqb c "?".

(** Two query strings made into one. *)
Definition join_query (a b : string) : string :=
  match a, b with
  | EmptyString, _ => b
  | _, EmptyString => a
  | _, String _ parameters => a +:+ "&" +:+ parameters
  end.

(** What the query step appends to the URL. *)
Definition query_outcome (query : option (JSRecord num)) : Completion string :=
  match query with
  | None => Normal EmptyString
  | Some currentQuery => generateQueryString currentQuery
  end.

(** The request the before-request chain leaves, once the query string is
    known. *)
Definition before_result (opts : UseCustomFetchOptions num) (ctx : BeforeFetchContext)
    (qs : string) : BeforeFetchContext :=
  let h0 := headers (options ctx) in
  let h1 := if default false (isBearerTokenRequired opts)
            then <["Authorization" := "Bearer <token>"]> h0 else h0 in
  {| url := url ctx +:+ qs;
     options :=
       {| method := method (options ctx);
          headers := match json opts with
                     | Some _ => <["Content-Type" := "application/json"]> h1
                     | None => h1
                     end;
          body := match json opts with
                  | Some currentRawData =>
                      JSON_stringify (JSObject (removeNullishInObject currentRawData))
                  | None => body (options ctx)
                  end |} |}.

(** Two steps that can be run in either order. *)
Definition commute {T : Type} (f g : T -> Hook T) : Prop :=
  forall ctx : T, (f ctx ≫= g) = (g ctx ≫= f).

(** The older options, read as options of the current module. *)
Definition of_legacy (opts : Legacy.UseCustomFetchOptions num) : UseCustomFetchOptions num :=
  {| isBearerTokenRequired := Legacy.isBearerTokenRequired opts;
     query := Legacy.query opts;
     json := None;
     responseSchema := None;
     errorResponseSchema := None |}.

End FurtherVocabulary.

(** A post, as the object the API sends and receives. *)
Definition post (id title : string) (views : Z) : JSRecord Z :=
  [("id", JSString id); ("title", JSString title); ("views", JSNum views)].

(** ** Running the definitions *)

Example generateQueryString_ab :
  generateQueryString [("a", JSString "1"); ("b", JSArray [JSString "2"; JSString "3"]);
                       ("n", JSNum 0%Z); ("m", JSNum (-12)%Z); ("s p", JSString "x&y=é")]
  = Normal "?a=1&b=2&b=3&m=-12&s+p=x%26y%3D%C3%A9".
Proof. vm_compute. reflexivity. Qed.

Example JSON_stringify_sample :
  JSON_stringify (JSObject [("a", JSString "x"); ("u", JSUndefined);
                            ("l", JSArray [JSNum 1%Z; JSUndefined; JSNull; JSBool true])])
  = Some (String "{" (double_quote +:+ "a" +:+ double_quote +:+ ":" +:+ double_quote +:+ "x"
          +:+ double_quote +:+ "," +:+ double_quote +:+ "l" +:+ double_quote
          +:+ ":[1,null,null,true]}")).
Proof. vm_compute. reflexivity. Qed.

Example postsSchema_accepts :
  success (safeParse postsSchema
             (JSObject [("id", JSString "42"); ("title", JSString "t"); ("views", JSNum 7%Z);
                        ("extra", JSNull)])) = true.
Proof. reflexivity. Qed.

Example postsSchema_rejects :
  safeParse postsSchema (JSObject [("id", JSNum 42%Z); ("title", JSString "t")])
  = SafeParseError [ {| issue_path := ["id"]; issue_message := "Expected string, received number" |};
                     {| issue_path := ["views"]; issue_message := "Required" |} ].
Proof. reflexivity. Qed.

Example JSON_parse_int_object :
  JSON_parse_int (" {" +:+ double_quote +:+ "message" +:+ double_quote +:+ ": [1, -20, true, null, {}], "
                  +:+ double_quote +:+ "a" +:+ double_quote +:+ ":" +:+ double_quote +:+ "b\n"
                  +:+ double_quote +:+ "} ")
  = Some (JSObject [("message", JSArray [JSNum 1%Z; JSNum (-20)%Z; JSBool true; JSNull; JSObject []]);
                    ("a", JSString (String "b" (String (ascii_of_N 10) EmptyString)))]).
Proof. vm_compute. reflexivity. Qed.

Example JSON_parse_int_rejects_html : JSON_parse_int "<html>Bad Gateway</html>" = None.
Proof. vm_compute. reflexivity. Qed.

Example JSON_parse_int_rejects_empty : JSON_parse_int EmptyString = None.
Proof. vm_compute. reflexivity. Qed.

Example JSON_parse_int_rejects_trailing : JSON_parse_int "[1,]" = None /\ JSON_parse_int "01" = None.
Proof. vm_compute. split; reflexivity. Qed.

Example getBeforeFetch_sample :
  let run := getBeforeFetch
               {| isBearerTokenRequired := Some true; query := Some sample_query;
                  json := Some [("title", JSString "t"); ("views", JSNum 3%Z);
                                ("note", JSString EmptyString); ("x", JSNull)];
                  responseSchema := None; errorResponseSchema := None |}
               (get_request "/posts") in
  effects run = [] /\
  match completion run with
  | Normal ctx =>
      url ctx = "/posts?a=1&b=2&b=3" /\
      headers (options ctx) !! "Authorization" = Some "Bearer <token>" /\
      headers (options ctx) !! "Content-Type" = Some "application/json" /\
      body (options ctx)
      = Some ("{" +:+ double_quote +:+ "title" +:+ double_quote +:+ ":" +:+ double_quote +:+ "t"
              +:+ double_quote +:+ "," +:+ double_quote +:+ "views" +:+ double_quote +:+ ":3}")
  | Throw _ => False
  end.
Proof. vm_compute. repeat split. Qed.

Example generateQueryString_prints_nested :
  generateQueryString (num := Z)
    [("a", JSArray [JSArray [JSNum 1%Z; JSNull; JSArray [JSNum 2%Z; JSNum 3%Z]]; JSBool false]);
     ("z", JSBool false); ("o", JSObject [])]
  = Normal "?a=1%2C%2C2%2C3&a=false&o=%5Bobject+Object%5D".
Proof. vm_compute. reflexivity. Qed.

Example generateQueryString_null_element_throws :
  generateQueryString (num := Z) [("a", JSArray [JSString "1"; JSNull])]
  = Throw (TypeError "Cannot read properties of null (reading 'toString')").
Proof. vm_compute. reflexivity. Qed.

Example parseQueryString_sample :
  parseQueryString (num := Z) "?q=a+b%26c&tag=x&tag=y&tag=z&&empty="
  = [("q", JSString "a b&c"); ("tag", JSArray [JSString "x"; JSString "y"; JSString "z"]);
     ("empty", JSString EmptyString)].
Proof. vm_compute. reflexivity. Qed.

Example zod_array_sample :
  safeParse (zod_array postsSchema)
    (JSArray [JSObject (post "1" "a" 1); JSObject [("id", JSNum 2%Z)]])
  = SafeParseError
      [ {| issue_path := ["1"; "id"]; issue_message := "Expected string, received number" |};
        {| issue_path := ["1"; "title"]; issue_message := "Required" |};
        {| issue_path := ["1"; "views"]; issue_message := "Required" |} ].
Proof. vm_compute. reflexivity. Qed.

Example deletePosts_sample :
  let '(printed, call) := deletePosts "https://api.example" "production" JSON_parse_int "42" in
  printed = [Console_group "%c test" "color: yellow;"; Console_log "42"; Console_groupEnd] /\
  fetch_url call = "/posts/42" /\ fetch_method call = "DELETE" /\
  timeout (fetch_config call) = 30000%Z /\ immediate (fetch_config call) = false /\
  mode (fetch_config call) = "cors" /\ baseUrl (fetch_config call) = "https://api.example".
Proof. repeat split. Qed.

Example Legacy_getBeforeFetch_sample :
  match completion (Legacy.getBeforeFetch
                      {| Legacy.isBearerTokenRequired := Some true;
                         Legacy.query := Some sample_query;
                         Legacy.json := Some (post "1" "a" 1) |}
                      (get_request "/posts")) with
  | Normal ctx =>
      url ctx = "/posts?a=1&b=2&b=3" /\
      headers (options ctx) !! "Authorization" = Some "Bearer <token>" /\
      body (options ctx) = None
  | Throw _ => False
  end.
Proof. vm_compute. repeat split. Qed.

(** ** The serializer *)

Section SerializerFacts.
Context {num : Type} {NumOps : JSNumber num}.

Lemma toString_not_nullish (v : JSValue num) :
  is_nullish v = false -> toString v = Normal (ToString v).
Proof. destruct v; simpl; intros H; try reflexivity; discriminate. Qed.

Lemma ToBoolean_not_nullish (v : JSValue num) : ToBoolean v = true -> is_nullish v = false.
Proof. destruct v; simpl; intros H; try reflexivity; discriminate. Qed.

Lemma forEach_append_spec (key : string) (elements : list (JSValue num)) :
  forallb (fun el => negb (is_nullish el)) elements = true ->
  forall query,
    forEach_append key elements query
    = Normal (query ++ map (fun el => (key, ToString el)) elements).
Proof.
  induction elements as [|el rest IH]; simpl; intros Hp query.
  - now rewrite app_nil_r.
  - apply andb_true_iff in Hp as [Hel Hrest].
    rewrite toString_not_nullish by now apply negb_true_iff.
    simpl. rewrite (IH Hrest). unfold URLSearchParams_append.
    now rewrite <- app_assoc.
Qed.

Lemma generateQueryString_loop_spec (entries : list (string * JSValue num)) :
  arrays_printable entries = true ->
  forall query,
    generateQueryString_loop entries query
    = Normal (query ++ flat_map params_of_entry entries).
Proof.
  induction entries as [|[key value] rest IH]; simpl; intros Hp query.
  - now rewrite app_nil_r.
  - apply andb_true_iff in Hp as [Hv Hrest]. simpl in Hv.
    assert (Hscalar : forall q,
               (if ToBoolean value
                then s ← toString value;
                     generateQueryString_loop rest (URLSearchParams_append q key s)
                else generateQueryString_loop rest q)
               = Normal (q ++ (if ToBoolean value then [(key, ToString value)] else [])
                           ++ flat_map params_of_entry rest)).
    { intros q. destruct (ToBoolean value) eqn:Hb.
      - rewrite toString_not_nullish by now apply ToBoolean_not_nullish.
        simpl. rewrite (IH Hrest). unfold URLSearchParams_append.
        now rewrite <- app_assoc.
      - now rewrite (IH Hrest). }
    unfold params_of_entry at 1; simpl.
    destruct value; try apply Hscalar.
    rewrite (forEach_append_spec _ _ Hv). simpl.
    rewrite (IH Hrest). now rewrite <- app_assoc.
Qed.

Lemma length_append (a b : string) :
  String.length (a +:+ b) = (String.length a + String.length b)%nat.
Proof. induction a as [|c a IH]; simpl; [reflexivity | now rewrite IH]. Qed.

Lemma join_cons_nonempty (sep p : string) (rest : list string) :
  (0 < String.length p)%nat -> (0 < String.length (join sep (p :: rest)))%nat.
Proof.
  intros Hp. simpl. destruct rest as [|q rest']; [exact Hp|].
  destruct p; simpl in *; lia.
Qed.

Lemma URLSearchParams_toString_nonempty (query : URLSearchParams) :
  (0 <? String.length (URLSearchParams_toString query))%nat
  = match query with [] => false | _ :: _ => true end.
Proof.
  destruct query as [|[name value] rest]; [reflexivity|].
  apply Nat.ltb_lt. unfold URLSearchParams_toString. rewrite map_cons.
  apply join_cons_nonempty.
  rewrite !length_append. simpl. lia.
Qed.

Lemma getAll_app (q1 q2 : URLSearchParams) (name : string) :
  URLSearchParams_getAll (q1 ++ q2) name
  = URLSearchParams_getAll q1 name ++ URLSearchParams_getAll q2 name.
Proof. unfold URLSearchParams_getAll. now rewrite List.filter_app, map_app. Qed.

Lemma getAll_params_other (kv : string * JSValue num) (name : string) :
  fst kv <> name -> URLSearchParams_getAll (params_of_entry kv) name = [].
Proof.
  intros Hne. apply String.eqb_neq in Hne.
  unfold URLSearchParams_getAll, params_of_entry.
  destruct kv as [k v]; simpl in *.
  assert (Harr : forall els : list (JSValue num),
             List.filter (fun p => String.eqb (fst p) name)
                         (map (fun el => (k, ToString el)) els) = []).
  { induction els as [|e els IH]; simpl; [reflexivity|]. now rewrite Hne. }
  destruct v; simpl; rewrite ?Harr;
    try match goal with
        | |- context [List.filter _ (if ?b then _ else _)] => destruct b
        end;
    simpl; rewrite ?Hne; reflexivity.
Qed.

Lemma getAll_params_array (key : string) (elements : list (JSValue num)) :
  URLSearchParams_getAll (params_of_entry (key, JSArray elements)) key
  = map ToString elements.
Proof.
  unfold URLSearchParams_getAll, params_of_entry; simpl.
  induction elements as [|e els IH]; simpl; [reflexivity|].
  rewrite String.eqb_refl. simpl. now rewrite IH.
Qed.

Lemma getAll_flat_map_absent (entries : list (string * JSValue num)) (name : string) :
  ~ In name (map fst entries) ->
  URLSearchParams_getAll (flat_map params_of_entry entries) name = [].
Proof.
  induction entries as [|kv rest IH]; simpl; intros Hn; [reflexivity|].
  rewrite getAll_app, getAll_params_other, IH; auto.
Qed.

Lemma getAll_flat_map_array (entries : list (string * JSValue num))
    (key : string) (elements : list (JSValue num)) :
  List.NoDup (map fst entries) ->
  In (key, JSArray elements) entries ->
  URLSearchParams_getAll (flat_map params_of_entry entries) key = map ToString elements.
Proof.
  induction entries as [|kv rest IH]; simpl; intros Hnd Hin; [contradiction|].
  inversion Hnd as [|k ks Hfresh Hnd']; subst.
  rewrite getAll_app. destruct Hin as [-> | Hin].
  - simpl in Hfresh.
    now rewrite getAll_params_array, getAll_flat_map_absent, app_nil_r.
  - rewrite (IH Hnd' Hin).
    rewrite getAll_params_other; [reflexivity|].
    intros Heq. apply Hfresh. rewrite Heq.
    change key with (fst (key, JSArray elements)). now apply in_map.
Qed.

End SerializerFacts.

(** ** The query string, read by [URLSearchParams] *)

Lemma plus_to_space_app (a b : string) :
  plus_to_space (a +:+ b) = plus_to_space a +:+ plus_to_space b.
Proof. induction a as [|c a IH]; simpl; [reflexivity | now rewrite IH]. Qed.

Lemma decode_encoded_byte (c : ascii) (rest : string) :
  urlencoded_decode (urlencoded_serialize_bytes (String c rest))
  = String c (urlencoded_decode (urlencoded_serialize_bytes rest)).
Proof.
  unfold urlencoded_decode.
  destruct c as [[] [] [] [] [] [] [] []]; reflexivity.
Qed.

Lemma urlencoded_decode_serialize (s : string) :
  urlencoded_decode (urlencoded_serialize_bytes s) = s.
Proof.
  induction s as [|c s IH]; [reflexivity|].
  now rewrite decode_encoded_byte, IH.
Qed.

Lemma serialized_byte_no_separator (c : ascii) (rest : string) :
  string_forallb (fun x => negb (is_separator x)) (urlencoded_serialize_bytes (String c rest))
  = string_forallb (fun x => negb (is_separator x)) (urlencoded_serialize_bytes rest).
Proof. destruct c as [[] [] [] [] [] [] [] []]; reflexivity. Qed.

Lemma serialized_no_separator (s : string) :
  string_forallb (fun x => negb (is_separator x)) (urlencoded_serialize_bytes s) = true.
Proof.
  induction s as [|c s IH]; [reflexivity|].
  now rewrite serialized_byte_no_separator.
Qed.

Lemma split_first_at (a b : string) :
  string_forallb (fun x => negb (is_separator x)) a = true ->
  split_first "=" (a +:+ "=" +:+ b) = (a, b).
Proof.
  induction a as [|c a IH]; simpl; intros H; [reflexivity|].
  apply andb_true_iff in H as [Hc Ha].
  unfold is_separator in Hc. apply negb_true_iff, orb_false_iff in Hc as [_ Hc].
  now rewrite Hc, (IH Ha).
Qed.

Lemma split_on_piece (p : string * string) :
  split_on "&" (piece_of p) = [piece_of p].
Proof.
  destruct p as [name value]. unfold piece_of.
  assert (Hs : forall s, string_forallb (fun x => negb (is_separator x)) s = true ->
                         split_on "&" s = [s]).
  { induction s as [|c s IH]; simpl; intros H; [reflexivity|].
    apply andb_true_iff in H as [Hc Hs].
    unfold is_separator in Hc. apply negb_true_iff, orb_false_iff in Hc as [Hc _].
    now rewrite Hc, (IH Hs). }
  assert (Ha : forall a b, string_forallb (fun x => negb (is_separator x)) a = true ->
                           split_on "&" b = [b] ->
                           split_on "&" (a +:+ "=" +:+ b) = [a +:+ "=" +:+ b]).
  { induction a as [|c a IH]; intros b H Hb.
    - change (split_on "&" (String "=" b) = [String "=" b]).
      cbn [split_on]. rewrite Hb. reflexivity.
    - simpl in H. apply andb_true_iff in H as [Hc Hs'].
      unfold is_separator in Hc. apply negb_true_iff, orb_false_iff in Hc as [Hc _].
      change (split_on "&" (String c (a +:+ "=" +:+ b)) = [String c (a +:+ "=" +:+ b)]).
      cbn [split_on]. now rewrite Hc, (IH _ Hs' Hb). }
  apply Ha; [apply serialized_no_separator|].
  apply Hs, serialized_no_separator.
Qed.

Lemma split_on_cons (a rest : string) :
  split_on "&" a = [a] ->
  split_on "&" (a +:+ "&" +:+ rest) = a :: split_on "&" rest.
Proof.
  revert rest. induction a as [|c a IH]; simpl; intros rest; [reflexivity|].
  destruct (Ascii.eqb c "&") eqn:Hc; [discriminate|].
  destruct (split_on "&" a) as [|f o] eqn:Hsa; intros H.
  - injection H as <-. discriminate.
  - injection H as Hf Ho. subst f o.
    now rewrite (IH rest eq_refl).
Qed.

Lemma split_on_join (query : URLSearchParams) :
  query <> [] ->
  split_on "&" (join "&" (map piece_of query)) = map piece_of query.
Proof.
  induction query as [|p rest IH]; intros Hne; [contradiction|].
  destruct rest as [|q rest'].
  - simpl. apply split_on_piece.
  - change (join "&" (map piece_of (p :: q :: rest')))
      with (piece_of p +:+ "&" +:+ join "&" (map piece_of (q :: rest'))).
    rewrite split_on_cons by apply split_on_piece.
    rewrite IH by discriminate. reflexivity.
Qed.

Lemma piece_not_empty (p : string * string) : piece_of p <> EmptyString.
Proof.
  destruct p as [name value]. unfold piece_of.
  destruct (urlencoded_serialize_bytes name); discriminate.
Qed.

Lemma parse_pieces (query : URLSearchParams) :
  omap (fun piece =>
          match piece with
          | EmptyString => None
          | _ => let '(name, value) := split_first "=" piece in
                 Some (urlencoded_decode name, urlencoded_decode value)
          end) (map piece_of query) = query.
Proof.
  induction query as [|[name value] rest IH]; [reflexivity|].
  rewrite map_cons. 
  change (omap ?f (?x :: ?l)) with (match f x with Some y => y :: omap f l | None => omap f l end).
  rewrite IH.
  destruct (piece_of (name, value)) eqn:Hp; [now apply piece_not_empty in Hp|].
  rewrite <- Hp. unfold piece_of.
  rewrite split_first_at by apply serialized_no_separator.
  now rewrite !urlencoded_decode_serialize.
Qed.

(** Reading back the query string made of any parameters gives the
    parameters. *)
Lemma URLSearchParams_parse_query_string (query : URLSearchParams) :
  URLSearchParams_parse (query_string_of query) = query.
Proof.
  destruct query as [|p rest]; [reflexivity|].
  unfold query_string_of, URLSearchParams_parse.
  change ("?" +:+ ?s) with (String "?" s).
  change (URLSearchParams_toString (p :: rest)) with (join "&" (map piece_of (p :: rest))).
  cbv iota beta match.
  rewrite split_on_join by discriminate.
  apply parse_pieces.
Qed.

(** ** Claims about the serializer *)

(** C4. In a mapping with distinct keys whose arrays hold no [null] or
    [undefined], the serializer completes; its query string is the
    [URLSearchParams] text of the parameters it appended (with [?] in
    front when there is one), and read by [URLSearchParams] it has, under
    the key of an array, exactly the array's elements, printed, one
    parameter each, in the array's order. *)
Theorem generateQueryString_array_entries {num : Type} {NumOps : JSNumber num}
    (queryData : JSRecord num) (key : string) (elements : list (JSValue num)) :
  List.NoDup (Object_keys queryData) ->
  arrays_printable queryData = true ->
  In (key, JSArray elements) (Object_entries queryData) ->
  exists (query : URLSearchParams) (queryString : string),
    generateQueryString_loop (Object_entries queryData) URLSearchParams_new = Normal query /\
    generateQueryString queryData = Normal queryString /\
    queryString = query_string_of query /\
    URLSearchParams_parse queryString = query /\
    URLSearchParams_getAll (URLSearchParams_parse queryString) key = map ToString elements /\
    length (URLSearchParams_getAll (URLSearchParams_parse queryString) key) = length elements.
Proof.
  intros Hnd Hp Hin.
  exists (flat_map params_of_entry queryData), (query_string_of (flat_map params_of_entry queryData)).
  unfold generateQueryString, Object_entries, URLSearchParams_new in *.
  rewrite (generateQueryString_loop_spec _ Hp). simpl.
  rewrite URLSearchParams_toString_nonempty, URLSearchParams_parse_query_string.
  rewrite (getAll_flat_map_array _ _ _ Hnd Hin), length_map.
  repeat split.
  now destruct (flat_map params_of_entry queryData).
Qed.

Lemma generateQueryString_array_entries_witness :
  exists (query : URLSearchParams) (queryString : string),
    generateQueryString_loop (Object_entries sample_query) URLSearchParams_new = Normal query /\
    generateQueryString sample_query = Normal queryString /\
    queryString = query_string_of query /\
    URLSearchParams_parse queryString = query /\
    URLSearchParams_getAll (URLSearchParams_parse queryString) "b"
    = map ToString [JSString "2"; JSString "3"] /\
    length (URLSearchParams_getAll (URLSearchParams_parse queryString) "b") = 2%nat.
Proof.
  apply (generateQueryString_array_entries sample_query "b" [JSString "2"; JSString "3"]).
  - repeat constructor; simpl; intuition discriminate.
  - reflexivity.
  - simpl. right. left. reflexivity.
Defined.

Lemma nullish_loop {num : Type} {NumOps : JSNumber num} (entries : list (string * JSValue num)) (query : URLSearchParams) :
  forallb (fun kv => empty_like (snd kv)) entries = true ->
  generateQueryString_loop entries query = Normal query.
Proof.
  induction entries as [|[key value] rest IH]; simpl; intros H; [reflexivity|].
  apply andb_true_iff in H as [Hv Hrest]. simpl in Hv.
  destruct value as [ | | b | n | s | els | props]; try discriminate; simpl; auto.
  destruct s; [simpl; auto | discriminate].
Qed.

Lemma nullish_removed {num : Type} {NumOps : JSNumber num} (obj : JSRecord num) :
  forallb (fun kv => empty_like (snd kv)) obj = true ->
  removeNullishInObject obj = [].
Proof.
  unfold removeNullishInObject, Object_fromEntries, Object_entries.
  induction obj as [|[key value] rest IH]; simpl; intros H; [reflexivity|].
  apply andb_true_iff in H as [Hv Hrest]. simpl in Hv.
  destruct value as [ | | b | n | s | els | props]; try discriminate; simpl; auto.
  destruct s; [simpl; auto | discriminate].
Qed.

(** C5. On a mapping whose values are all the empty string, [null] or
    [undefined], the serializer returns the empty string, the body cleaner
    returns the empty mapping, and the body step sets the request body to
    the JSON text of the empty object. *)
Theorem nullish_mapping_serializes_empty {num : Type} {NumOps : JSNumber num} (obj : JSRecord num) :
  forallb (fun kv => empty_like (snd kv)) obj = true ->
  generateQueryString obj = Normal EmptyString /\
  removeNullishInObject obj = [] /\
  JSON_stringify (JSObject (removeNullishInObject obj)) = Some "{}" /\
  forall ctx : BeforeFetchContext,
    exists ctx' : BeforeFetchContext,
      getJsonFormatBeforeFetch (Some obj) ctx = ([], Normal ctx') /\
      body (options ctx') = Some "{}" /\
      url ctx' = url ctx.
Proof.
  intros H. unfold generateQueryString, Object_entries.
  rewrite (nullish_loop _ _ H), (nullish_removed _ H).
  repeat split.
  intros ctx. eexists. split; [reflexivity|].
  simpl. now rewrite (nullish_removed _ H).
Qed.

Lemma nullish_mapping_serializes_empty_witness :
  generateQueryString (num := Z)
    [("a", JSString EmptyString); ("b", JSNull); ("c", JSUndefined)] = Normal EmptyString /\
  removeNullishInObject (num := Z)
    [("a", JSString EmptyString); ("b", JSNull); ("c", JSUndefined)] = [] /\
  JSON_stringify (JSObject (removeNullishInObject (num := Z)
    [("a", JSString EmptyString); ("b", JSNull); ("c", JSUndefined)])) = Some "{}" /\
  forall ctx : BeforeFetchContext,
    exists ctx' : BeforeFetchContext,
      getJsonFormatBeforeFetch (num := Z)
        (Some [("a", JSString EmptyString); ("b", JSNull); ("c", JSUndefined)]) ctx
      = ([], Normal ctx') /\
      body (options ctx') = Some "{}" /\
      url ctx' = url ctx.
Proof.
  apply (nullish_mapping_serializes_empty
           [("a", JSString EmptyString); ("b", JSNull); ("c", JSUndefined)]).
  reflexivity.
Defined.

Lemma Legacy_forEach_append_agree {num : Type} {NumOps : JSNumber num} (key : string) (elements : list (JSValue num))
    (query : URLSearchParams) :
  Legacy.forEach_append key elements query = forEach_append key elements query.
Proof.
  revert query. induction elements as [|el rest IH]; intros query; simpl; [reflexivity|].
  destruct (toString el); simpl; [apply IH | reflexivity].
Qed.

Lemma Legacy_loop_agree {num : Type} {NumOps : JSNumber num} (entries : list (string * JSValue num)) (query : URLSearchParams) :
  Legacy.generateQueryString_loop entries query = generateQueryString_loop entries query.
Proof.
  revert query. induction entries as [|[key value] rest IH]; intros query; simpl; [reflexivity|].
  destruct value; simpl; rewrite ?Legacy_forEach_append_agree;
    try match goal with
        | |- context [forEach_append ?k ?els ?q] => destruct (forEach_append k els q); simpl
        end;
    rewrite ?IH; reflexivity.
Qed.

(** C10. The serializer of the older module and the serializer of the
    current module return the same completion on every mapping. *)
Theorem generateQueryString_copies_agree {num : Type} {NumOps : JSNumber num} (queryData : JSRecord num) :
  Legacy.generateQueryString queryData = generateQueryString queryData.
Proof.
  unfold Legacy.generateQueryString, generateQueryString.
  now rewrite Legacy_loop_agree.
Qed.

(** ** Reading back what the serializer wrote *)

Section ReadBack.
Context {num : Type} {NumOps : JSNumber num}.

Abbreviation add := (fun (record : JSRecord num) '(name, value) => add_parsed record name value).

Lemma add_parsed_fresh (acc : JSRecord num) (k s : string) :
  ~ In k (map fst acc) -> add_parsed acc k s = acc ++ [(k, JSString s)].
Proof.
  induction acc as [|[k' v'] acc IH]; simpl; intros Hfresh; [reflexivity|].
  destruct (String.eqb_spec k' k) as [->|Hne]; [exfalso; auto|].
  rewrite IH by auto. reflexivity.
Qed.

Lemma add_parsed_last (acc : JSRecord num) (k s : string) (v : JSValue num) :
  ~ In k (map fst acc) ->
  add_parsed (acc ++ [(k, v)]) k s
  = acc ++ [(k, match v with
                | JSArray elements => JSArray (elements ++ [JSString s])
                | other => JSArray [other; JSString s]
                end)].
Proof.
  induction acc as [|[k' v'] acc IH]; simpl; intros Hfresh.
  - now rewrite String.eqb_refl.
  - destruct (String.eqb_spec k' k) as [->|Hne]; [exfalso; auto|].
    rewrite IH by auto. reflexivity.
Qed.

Lemma read_back_elements (acc : JSRecord num) (k : string) (rest : list (JSValue num)) :
  ~ In k (map fst acc) ->
  forallb (fun el => match el with JSString _ => true | _ => false end) rest = true ->
  forall elements : list (JSValue num),
    fold_left add (map (fun el => (k, ToString el)) rest) (acc ++ [(k, JSArray elements)])
    = acc ++ [(k, JSArray (elements ++ rest))].
Proof.
  intros Hfresh. induction rest as [|el rest IH]; simpl; intros Hstr elements.
  - now rewrite app_nil_r.
  - apply andb_true_iff in Hstr as [Hel Hrest].
    destruct el; try discriminate. simpl.
    rewrite add_parsed_last by assumption.
    rewrite (IH Hrest). now rewrite <- app_assoc.
Qed.

Lemma read_back_entry (acc : JSRecord num) (k : string) (v : JSValue num) :
  ~ In k (map fst acc) ->
  reads_back v = true ->
  fold_left add (params_of_entry (k, v)) acc = acc ++ [(k, v)].
Proof.
  intros Hfresh Hv. unfold params_of_entry; simpl.
  destruct v as [ | | b | n | s | elements | props]; try discriminate; simpl in Hv |- *.
  - rewrite Hv. simpl. now apply add_parsed_fresh.
  - destruct elements as [|[ | | | | s1 | | ] [|[ | | | | s2 | | ] rest]]; try discriminate.
    simpl.
    rewrite (add_parsed_fresh acc k s1 Hfresh), (add_parsed_last acc k s2 _ Hfresh).
    now rewrite (read_back_elements acc k rest Hfresh Hv).
Qed.

Lemma read_back_entries (entries : JSRecord num) :
  forall acc : JSRecord num,
    List.NoDup (map fst (acc ++ entries)) ->
    forallb (fun kv => reads_back (snd kv)) entries = true ->
    fold_left add (flat_map params_of_entry entries) acc = acc ++ entries.
Proof.
  induction entries as [|[k v] rest IH]; simpl; intros acc Hnd Hrb.
  - now rewrite app_nil_r.
  - apply andb_true_iff in Hrb as [Hv Hrest]. simpl in Hv.
    assert (Hfresh : ~ In k (map fst acc)).
    { rewrite map_app in Hnd. simpl in Hnd.
      apply List.NoDup_remove_2 in Hnd.
      intros Hin. apply Hnd. apply in_or_app. now left. }
    rewrite fold_left_app, (read_back_entry acc k v Hfresh Hv).
    rewrite IH; [now rewrite <- app_assoc | | assumption].
    now rewrite <- app_assoc.
Qed.

Lemma reads_back_printable (entries : JSRecord num) :
  forallb (fun kv => reads_back (snd kv)) entries = true ->
  arrays_printable entries = true.
Proof.
  unfold arrays_printable.
  induction entries as [|[k v] rest IH]; simpl; intros H; [reflexivity|].
  apply andb_true_iff in H as [Hv Hrest]. rewrite (IH Hrest), andb_true_r.
  destruct v as [ | | b | n | s | elements | props]; try reflexivity.
  destruct elements as [|[ | | | | s1 | | ] [|[ | | | | s2 | | ] tail]]; try discriminate.
  simpl in *. induction tail as [|el tail IHt]; simpl in *; [reflexivity|].
  apply andb_true_iff in Hv as [Hel Htail]. rewrite (IHt Htail), andb_true_r.
  now destruct el.
Qed.

(** Serializing a mapping with distinct keys whose values are non-empty
    strings or arrays of two or more strings, and reading the query string
    back, gives the mapping. *)
Lemma query_string_round_trip (queryData : JSRecord num) :
  List.NoDup (Object_keys queryData) ->
  forallb (fun kv => reads_back (snd kv)) queryData = true ->
  (qs ← generateQueryString queryData; mret (parseQueryString qs)) = Normal queryData.
Proof.
  intros Hnd Hrb. unfold generateQueryString, Object_entries, URLSearchParams_new.
  rewrite (generateQueryString_loop_spec _ (reads_back_printable _ Hrb)). simpl.
  rewrite URLSearchParams_toString_nonempty.
  change (mret ?x) with (Normal x).
  f_equal. unfold parseQueryString.
  set (query := flat_map params_of_entry queryData).
  replace (if match query with [] => false | _ :: _ => true end
           then "?" +:+ URLSearchParams_toString query else EmptyString)
    with (query_string_of query) by now destruct query.
  rewrite URLSearchParams_parse_query_string.
  subst query. now rewrite (read_back_entries queryData []).
Qed.

End ReadBack.

(** C7. The serializer turns the mapping [{a: "1", b: ["2","3"]}] into
    [?a=1&b=2&b=3], and reading that query string back gives the mapping
    again. *)
Theorem query_string_round_trip_example :
  generateQueryString (num := Z)
    [("a", JSString "1"); ("b", JSArray [JSString "2"; JSString "3"])]
  = Normal "?a=1&b=2&b=3" /\
  parseQueryString (num := Z) "?a=1&b=2&b=3"
  = [("a", JSString "1"); ("b", JSArray [JSString "2"; JSString "3"])] /\
  (qs ← generateQueryString (num := Z)
          [("a", JSString "1"); ("b", JSArray [JSString "2"; JSString "3"])];
   mret (parseQueryString (num := Z) qs))
  = Normal [("a", JSString "1"); ("b", JSArray [JSString "2"; JSString "3"])].
Proof. vm_compute. repeat split. Qed.

(** ** The hook chains *)

Lemma if_same {A : Type} (b : bool) (x : A) : (if b then x else x) = x.
Proof. now destruct b. Qed.

Lemma Hook_bind_ret {A B : Type} (a : A) (f : A -> Hook B) : (mret a ≫= f) = f a.
Proof. unfold mbind, mret, Hook_bind, Hook_ret. now destruct (f a). Qed.

Lemma log_type_error_spec (MODE label : string) (err : ZodError) :
  log_type_error MODE label err = (type_error_log MODE label err, Normal tt).
Proof.
  unfold log_type_error, type_error_log.
  destruct (String.eqb MODE "production"); reflexivity.
Qed.

Lemma generateQueryString_total {num : Type} {NumOps : JSNumber num} (queryData : JSRecord num) :
  arrays_printable queryData = true ->
  exists qs : string, generateQueryString queryData = Normal qs.
Proof.
  intros Hp. unfold generateQueryString, Object_entries.
  rewrite (generateQueryString_loop_spec _ Hp). simpl. eauto.
Qed.

(** The steps after the auth step perform no effect, and when the query
    can be printed they complete and touch no header but [Content-Type]. *)
Lemma before_tail_effects {num : Type} {NumOps : JSNumber num}
    (opts : UseCustomFetchOptions num) (ctx : BeforeFetchContext) :
  effects (fetchCurryFn ctx [getQueryBeforeFetch (query opts);
                             getJsonFormatBeforeFetch (json opts)]) = [].
Proof.
  unfold getQueryBeforeFetch, getJsonFormatBeforeFetch.
  destruct (query opts) as [q|], (json opts) as [j|]; simpl;
    try destruct (length (Object_keys q) =? 0)%nat; simpl;
    try destruct (generateQueryString q); reflexivity.
Qed.

Lemma before_tail_throws {num : Type} {NumOps : JSNumber num}
    (opts : UseCustomFetchOptions num) (ctx : BeforeFetchContext) (e : Exception) :
  completion (fetchCurryFn ctx [getQueryBeforeFetch (query opts);
                                getJsonFormatBeforeFetch (json opts)]) = Throw e ->
  query_printable opts = false.
Proof.
  unfold query_printable, getQueryBeforeFetch, getJsonFormatBeforeFetch.
  destruct (query opts) as [q|] eqn:Hq.
  - destruct (arrays_printable q) eqn:Hp; [|reflexivity].
    destruct (generateQueryString_total q Hp) as [qs Hqs].
    destruct (json opts); simpl;
      destruct (length (Object_keys q) =? 0)%nat; simpl; rewrite ?Hqs; simpl; discriminate.
  - destruct (json opts); simpl; discriminate.
Qed.

Lemma before_tail_headers {num : Type} {NumOps : JSNumber num}
    (opts : UseCustomFetchOptions num) (ctx ctx' : BeforeFetchContext) (name : string) :
  completion (fetchCurryFn ctx [getQueryBeforeFetch (query opts);
                                getJsonFormatBeforeFetch (json opts)]) = Normal ctx' ->
  name <> "Content-Type" ->
  headers (options ctx') !! name = headers (options ctx) !! name.
Proof.
  unfold getQueryBeforeFetch, getJsonFormatBeforeFetch.
  intros Hc Hname.
  destruct (query opts) as [q|], (json opts) as [j|]; simpl in Hc;
    try destruct (length (Object_keys q) =? 0)%nat; simpl in Hc;
    try destruct (generateQueryString q); simpl in Hc;
    try discriminate; injection Hc as <-; simpl;
    rewrite ?lookup_insert_ne by congruence; reflexivity.
Qed.




(** C9. The auth step of the source reads the constant ["<token>"], which
    is truthy: with the auth flag set, the chain never calls [ctx.cancel]
    (it performs no effect at all), the auth step returns the context with
    [Authorization: Bearer <token>] set, and the chain either completes
    with that header in place or is stopped by the serializer throwing on
    a query that cannot be printed. *)
Theorem hard_coded_token_always_injected {num : Type} {NumOps : JSNumber num}
    (opts : UseCustomFetchOptions num) (ctx : BeforeFetchContext) :
  isBearerTokenRequired opts = Some true ->
  ToBoolean (token (num := num)) = true /\
  effects (getBeforeFetch opts ctx) = [] /\
  getAuthorizationBeforeFetch (isBearerTokenRequired opts) ctx
  = ([], Normal (set_headers ctx
                   (<["Authorization" := "Bearer <token>"]> (headers (options ctx))))) /\
  match completion (getBeforeFetch opts ctx) with
  | Normal ctx' => headers (options ctx') !! "Authorization" = Some "Bearer <token>"
  | Throw _ => query_printable opts = false
  end.
Proof.
  intros Hflag.
  assert (Hauth : getAuthorizationBeforeFetch (isBearerTokenRequired opts) ctx
                  = ([], Normal (set_headers ctx
                       (<["Authorization" := "Bearer <token>"]> (headers (options ctx)))))).
  { unfold getAuthorizationBeforeFetch, getAuthorizationBeforeFetchWith.
    rewrite Hflag. reflexivity. }
  split; [reflexivity|].
  set (ctx1 := set_headers ctx _) in Hauth.
  assert (Hrun : getBeforeFetch opts ctx
                 = fetchCurryFn ctx1 [getQueryBeforeFetch (query opts);
                                      getJsonFormatBeforeFetch (json opts)]).
  { unfold getBeforeFetch, getBeforeFetchWith.
    change (fetchCurryFn ctx (?f :: ?rest)) with (acc ← f ctx; fetchCurryFn acc rest).
    fold (getAuthorizationBeforeFetch (num := num) (isBearerTokenRequired opts)).
    rewrite Hauth.
    destruct (fetchCurryFn ctx1 _) as [t c] eqn:Htail.
    unfold mbind, Hook_bind. now rewrite Htail. }
  repeat split.
  - rewrite Hrun. apply before_tail_effects.
  - exact Hauth.
  - rewrite Hrun.
    destruct (completion (fetchCurryFn ctx1 _)) as [ctx'|e] eqn:Hc.
    + rewrite (before_tail_headers opts ctx1 ctx' "Authorization" Hc) by discriminate.
      subst ctx1. simpl. apply lookup_insert_eq.
    + exact (before_tail_throws opts ctx1 e Hc).
Qed.

Lemma hard_coded_token_always_injected_witness :
  ToBoolean (token (num := Z)) = true /\
  effects (getBeforeFetch bearer_options (get_request "/posts")) = [] /\
  getAuthorizationBeforeFetch (num := Z) (isBearerTokenRequired bearer_options)
    (get_request "/posts")
  = ([], Normal (set_headers (get_request "/posts")
                   (<["Authorization" := "Bearer <token>"]>
                      (headers (options (get_request "/posts")))))) /\
  match completion (getBeforeFetch bearer_options (get_request "/posts")) with
  | Normal ctx' => headers (options ctx') !! "Authorization" = Some "Bearer <token>"
  | Throw _ => query_printable bearer_options = false
  end.
Proof.
  apply (hard_coded_token_always_injected bearer_options (get_request "/posts")).
  reflexivity.
Defined.

(** C6. With a success schema declared, an ok response whose data the
    schema rejects makes the after-response chain throw
    [TypeError("TYPE_ERROR")]; before throwing it prints the [ZodError]
    in a console group unless the mode is [production], where it prints
    nothing. *)
Theorem responseSchema_mismatch_raises {num : Type} (MODE : string)
    (opts : UseCustomFetchOptions num) (schema : ZodTypeAny num)
    (ctx : AfterFetchContext num) (err : ZodError) :
  responseSchema opts = Some schema ->
  ok (response ctx) = true ->
  safeParse schema (data ctx) = SafeParseError err ->
  completion (getAfterFetch MODE opts ctx) = Throw (TypeError "TYPE_ERROR") /\
  effects (getAfterFetch MODE opts ctx)
  = (if String.eqb MODE "production" then []
     else [console_group "%c [api response] type error" "color: yellow;";
           console_log err; console_groupEnd]).
Proof.
  intros Hschema Hok Herr.
  unfold getAfterFetch, responseSchemaAfterFetch. rewrite Hschema.
  simpl. rewrite Hok, Herr. simpl.
  rewrite log_type_error_spec. unfold type_error_log.
  destruct (String.eqb MODE "production"); split; reflexivity.
Qed.

Lemma responseSchema_mismatch_raises_witness :
  completion (getAfterFetch "development" error_options
                {| response := {| ok := true; status := 200 |}; data := not_found_body |})
  = Throw (TypeError "TYPE_ERROR") /\
  effects (getAfterFetch "development" error_options
             {| response := {| ok := true; status := 200 |}; data := not_found_body |})
  = (if String.eqb "development" "production" then []
     else [console_group "%c [api response] type error" "color: yellow;";
           console_log missing_fields; console_groupEnd]).
Proof.
  apply (responseSchema_mismatch_raises "development" error_options postsSchema
           {| response := {| ok := true; status := 200 |}; data := not_found_body |}
           missing_fields); reflexivity.
Defined.

(** What the after-response chain does, case by case. *)
Lemma getAfterFetch_spec {num : Type} (MODE : string)
    (opts : UseCustomFetchOptions num) (ctx : AfterFetchContext num) :
  getAfterFetch MODE opts ctx
  = match (if ok (response ctx) then responseSchema opts else errorResponseSchema opts) with
    | None => ([], Normal ctx)
    | Some schema =>
        match safeParse schema (data ctx) with
        | SafeParseSuccess _ => ([], Normal ctx)
        | SafeParseError err =>
            (type_error_log MODE
               (if ok (response ctx) then "%c [api response] type error"
                else "%c [api error] type error") err,
             Throw (TypeError "TYPE_ERROR"))
        end
    end.
Proof.
  unfold getAfterFetch, responseSchemaAfterFetch, errorSchemaAfterFetch.
  destruct (ok (response ctx)) eqn:Hok;
    destruct (responseSchema opts) as [rs|], (errorResponseSchema opts) as [es|];
    simpl; rewrite ?Hok; simpl;
    repeat match goal with
           | |- context [safeParse ?s ?d] => destruct (safeParse s d); simpl
           end;
    rewrite ?Hok; simpl; rewrite ?log_type_error_spec; simpl;
    rewrite ?app_nil_r; reflexivity.
Qed.

(** What the error-hook chain does, case by case. *)
Lemma getOnFetchError_spec {num : Type} (MODE : string)
    (JSON_parse : string -> option (JSValue num))
    (opts : UseCustomFetchOptions num) (ctx : CustomFetchErrorCtx num) :
  getOnFetchError MODE JSON_parse opts ctx
  = match errorResponseSchema opts with
    | None => ([], Normal ctx)
    | Some schema =>
        match parsed_error_data JSON_parse ctx with
        | None => ([], Throw (SyntaxError "Unexpected token in JSON"))
        | Some responseData =>
            match safeParse schema responseData with
            | SafeParseSuccess _ => ([], Normal ctx)
            | SafeParseError err =>
                (type_error_log MODE "%c [api error] type error" err, Normal ctx)
            end
        end
    end.
Proof.
  unfold getOnFetchError. simpl.
  unfold typeErrorOnFetchError. rewrite if_same, Hook_bind_ret.
  unfold timeOutErrorOnFetchError. rewrite if_same, Hook_bind_ret.
  unfold responseNullOnFetchError.
  replace (match err_response ctx with Some _ | _ => mret ctx end)
    with (mret (M := Hook) ctx) by now destruct (err_response ctx).
  rewrite Hook_bind_ret.
  unfold errorSchemaOnFetchError, parsed_error_data, JSON_parse_call.
  destruct (errorResponseSchema opts) as [schema|]; [|reflexivity].
  destruct (err_data ctx); simpl;
    repeat match goal with
           | |- context [JSON_parse ?s] => destruct (JSON_parse s); simpl
           | |- context [safeParse ?s ?d] => destruct (safeParse s d); simpl
           end;
    rewrite ?log_type_error_spec; simpl; rewrite ?app_nil_r; reflexivity.
Qed.

(** C1, as stated, fails in the after-response chain: with an error schema
    declared, a [404] whose body the schema rejects is logged and then
    thrown as [TypeError("TYPE_ERROR")]; the chain does not return the
    context. *)
Lemma errorSchemaAfterFetch_mismatch_escalates :
  errorResponseSchema error_options = Some postsSchema /\
  ok (response not_found_ctx) = false /\
  safeParse postsSchema (data not_found_ctx) = SafeParseError missing_fields /\
  getAfterFetch "development" error_options not_found_ctx
  = ([console_group "%c [api error] type error" "color: yellow;";
      console_log missing_fields; console_groupEnd],
     Throw (TypeError "TYPE_ERROR")) /\
  completion (getAfterFetch "development" error_options not_found_ctx) <> Normal not_found_ctx.
Proof. repeat split; try reflexivity. vm_compute. discriminate. Qed.

(** C1, amended. With an error schema declared and data the schema
    rejects, both chains log the [ZodError] (outside production). The
    error hook then returns the context it was given, provided the data is
    not a text that [JSON.parse] refuses; the after-response chain, run on
    a response that is not ok, throws [TypeError("TYPE_ERROR")]. *)
Theorem error_schema_mismatch_by_chain {num : Type} (MODE : string)
    (JSON_parse : string -> option (JSValue num))
    (opts : UseCustomFetchOptions num) (schema : ZodTypeAny num)
    (ectx : CustomFetchErrorCtx num) (responseData : JSValue num) (eerr : ZodError)
    (actx : AfterFetchContext num) (aerr : ZodError) :
  errorResponseSchema opts = Some schema ->
  parsed_error_data JSON_parse ectx = Some responseData ->
  safeParse schema responseData = SafeParseError eerr ->
  ok (response actx) = false ->
  safeParse schema (data actx) = SafeParseError aerr ->
  getOnFetchError MODE JSON_parse opts ectx
  = (type_error_log MODE "%c [api error] type error" eerr, Normal ectx) /\
  getAfterFetch MODE opts actx
  = (type_error_log MODE "%c [api error] type error" aerr, Throw (TypeError "TYPE_ERROR")).
Proof.
  intros Hschema Hdata Heerr Hok Haerr. split.
  - now rewrite getOnFetchError_spec, Hschema, Hdata, Heerr.
  - now rewrite getAfterFetch_spec, Hok, Hschema, Haerr.
Qed.

Lemma error_schema_mismatch_by_chain_witness :
  getOnFetchError "development" JSON_parse_int error_options not_found_error_ctx
  = (type_error_log "development" "%c [api error] type error" missing_fields,
     Normal not_found_error_ctx) /\
  getAfterFetch "development" error_options not_found_ctx
  = (type_error_log "development" "%c [api error] type error" missing_fields,
     Throw (TypeError "TYPE_ERROR")).
Proof.
  apply (error_schema_mismatch_by_chain "development" JSON_parse_int error_options postsSchema
           not_found_error_ctx not_found_body missing_fields not_found_ctx missing_fields).
  - reflexivity.
  - vm_compute. reflexivity.
  - reflexivity.
  - reflexivity.
  - reflexivity.
Defined.

(** C3 fails where the error hook parses text: with an error schema
    declared, data that is a string [JSON.parse] refuses makes the chain
    throw the [SyntaxError] of [JSON.parse] instead of returning the
    context. *)
Theorem getOnFetchError_raises_on_unparseable_text {num : Type} (MODE : string)
    (JSON_parse : string -> option (JSValue num))
    (opts : UseCustomFetchOptions num) (schema : ZodTypeAny num)
    (ctx : CustomFetchErrorCtx num) (text : string) :
  errorResponseSchema opts = Some schema ->
  err_data ctx = JSString text ->
  JSON_parse text = None ->
  getOnFetchError MODE JSON_parse opts ctx
  = ([], Throw (SyntaxError "Unexpected token in JSON")).
Proof.
  intros Hschema Hdata Hparse.
  rewrite getOnFetchError_spec, Hschema. unfold parsed_error_data.
  now rewrite Hdata, Hparse.
Qed.

Lemma getOnFetchError_raises_on_unparseable_text_witness :
  getOnFetchError "development" JSON_parse_int error_options bad_gateway_ctx
  = ([], Throw (SyntaxError "Unexpected token in JSON")).
Proof.
  apply (getOnFetchError_raises_on_unparseable_text "development" JSON_parse_int
           error_options postsSchema bad_gateway_ctx "<html>Bad Gateway</html>").
  - reflexivity.
  - reflexivity.
  - vm_compute. reflexivity.
Defined.

(** What the before-request chain can throw. *)

Lemma toString_throws {num : Type} {NumOps : JSNumber num} (v : JSValue num) (e : Exception) :
  toString v = Throw e -> property_read_error e.
Proof.
  unfold property_read_error.
  destruct v; simpl; intros H; try discriminate; injection H as <-; auto.
Qed.

Lemma forEach_append_throws {num : Type} {NumOps : JSNumber num}
    (key : string) (elements : list (JSValue num)) (e : Exception) :
  forall query, forEach_append key elements query = Throw e -> property_read_error e.
Proof.
  induction elements as [|el rest IH]; simpl; intros query H; [discriminate|].
  destruct (toString el) as [s|e'] eqn:Hel; simpl in H.
  - exact (IH _ H).
  - injection H as <-. exact (toString_throws _ _ Hel).
Qed.

Lemma generateQueryString_loop_throws {num : Type} {NumOps : JSNumber num}
    (entries : list (string * JSValue num)) (e : Exception) :
  forall query, generateQueryString_loop entries query = Throw e -> property_read_error e.
Proof.
  induction entries as [|[key value] rest IH]; simpl; intros query H; [discriminate|].
  assert (Hscalar : forall v : JSValue num,
             (if ToBoolean v
              then s ← toString v;
                   generateQueryString_loop rest (URLSearchParams_append query key s)
              else generateQueryString_loop rest query) = Throw e ->
             property_read_error e).
  { intros v Hv. destruct (ToBoolean v); [|exact (IH _ Hv)].
    destruct (toString v) as [s|e'] eqn:Hs; simpl in Hv.
    - exact (IH _ Hv).
    - injection Hv as <-. exact (toString_throws _ _ Hs). }
  destruct value as [ | | b | n | s | els | props];
    try match type of H with
        | (if ToBoolean ?v then _ else _) = _ => exact (Hscalar v H)
        end.
  destruct (forEach_append key els query) as [q|e'] eqn:Hq; simpl in H.
  - exact (IH _ H).
  - injection H as <-. exact (forEach_append_throws _ _ _ _ Hq).
Qed.

Lemma generateQueryString_throws {num : Type} {NumOps : JSNumber num}
    (queryData : JSRecord num) (e : Exception) :
  generateQueryString queryData = Throw e -> property_read_error e.
Proof.
  unfold generateQueryString. intros H.
  destruct (generateQueryString_loop (Object_entries queryData) URLSearchParams_new)
    as [q|e'] eqn:Hq; simpl in H; [discriminate|].
  injection H as <-. exact (generateQueryString_loop_throws _ _ _ Hq).
Qed.

Lemma before_tail_throws_kind {num : Type} {NumOps : JSNumber num}
    (opts : UseCustomFetchOptions num) (ctx : BeforeFetchContext) (e : Exception) :
  completion (fetchCurryFn ctx [getQueryBeforeFetch (query opts);
                                getJsonFormatBeforeFetch (json opts)]) = Throw e ->
  property_read_error e.
Proof.
  unfold getQueryBeforeFetch, getJsonFormatBeforeFetch.
  destruct (query opts) as [q|], (json opts) as [j|]; simpl;
    try destruct (length (Object_keys q) =? 0)%nat; simpl;
    try destruct (generateQueryString q) as [qs|e'] eqn:Hq; simpl;
    intros H; try discriminate;
    injection H as <-; exact (generateQueryString_throws _ _ Hq).
Qed.

Lemma getBeforeFetchWith_throws {num : Type} {NumOps : JSNumber num}
    (token : JSValue num) (opts : UseCustomFetchOptions num) (ctx : BeforeFetchContext)
    (e : Exception) :
  completion (getBeforeFetchWith token opts ctx) = Throw e -> property_read_error e.
Proof.
  unfold getBeforeFetchWith.
  change (fetchCurryFn ctx (?f :: ?rest)) with (acc ← f ctx; fetchCurryFn acc rest).
  assert (Hauth : exists t ctx1,
             getAuthorizationBeforeFetchWith token (isBearerTokenRequired opts) ctx
             = (t, Normal ctx1)).
  { unfold getAuthorizationBeforeFetchWith.
    destruct (negb (default false (isBearerTokenRequired opts))); [eexists _, _; reflexivity|].
    destruct (negb (ToBoolean token)); eexists _, _; reflexivity. }
  destruct Hauth as (t & ctx1 & ->).
  unfold mbind, Hook_bind.
  destruct (fetchCurryFn ctx1 _) as [t2 c] eqn:Htail. simpl. intros ->.
  apply (before_tail_throws_kind opts ctx1). now rewrite Htail.
Qed.

(** C8. [SERVER_ERROR] is neither produced nor consumed. The error hook
    returns the very context it was given or throws the [SyntaxError] of
    [JSON.parse], so it puts no tag into the [error] field; what it does
    on a context tagged [SERVER_ERROR] is what it does on the same context
    under any other tag; the after-response chain returns its context or
    throws [TypeError] with the [TYPE_ERROR] tag, which is not the
    [SERVER_ERROR] tag. The contexts of the before-request chain have no
    [error] field, and the only exception of that chain is the one of
    calling [toString] on [null] or [undefined]. *)
Theorem SERVER_ERROR_neither_produced_nor_consumed {num : Type} {NumOps : JSNumber num}
    (MODE : string)
    (JSON_parse : string -> option (JSValue num)) (opts : UseCustomFetchOptions num) :
  (forall ctx : CustomFetchErrorCtx num,
      match completion (getOnFetchError MODE JSON_parse opts ctx) with
      | Normal ctx' => ctx' = ctx
      | Throw e => e = SyntaxError "Unexpected token in JSON"
      end) /\
  (forall (ctx : CustomFetchErrorCtx num) (e : ApiErrorStatus),
      getOnFetchError MODE JSON_parse opts (set_error ctx e)
      = Hook_map (fun c => set_error c e)
                 (getOnFetchError MODE JSON_parse opts (set_error ctx SERVER_ERROR))) /\
  (forall ctx : AfterFetchContext num,
      match completion (getAfterFetch MODE opts ctx) with
      | Normal ctx' => ctx' = ctx
      | Throw e => e = TypeError (ApiErrorStatus_value TYPE_ERROR)
      end) /\
  (forall ctx : BeforeFetchContext,
      match completion (getBeforeFetch opts ctx) with
      | Normal _ => True
      | Throw e => property_read_error e
      end) /\
  ApiErrorStatus_value TYPE_ERROR <> ApiErrorStatus_value SERVER_ERROR.
Proof.
  split; [|split; [|split; [|split]]].
  - intros ctx. rewrite getOnFetchError_spec.
    destruct (errorResponseSchema opts) as [schema|]; [|reflexivity].
    destruct (parsed_error_data JSON_parse ctx) as [d|]; [|reflexivity].
    destruct (safeParse schema d); reflexivity.
  - intros ctx e. rewrite !getOnFetchError_spec.
    destruct (errorResponseSchema opts) as [schema|]; [|reflexivity].
    unfold parsed_error_data; simpl.
    destruct (match err_data ctx with JSString text => JSON_parse text | other => Some other end)
      as [d|]; [|reflexivity].
    destruct (safeParse schema d); reflexivity.
  - intros ctx. rewrite getAfterFetch_spec.
    destruct (if ok (response ctx) then responseSchema opts else errorResponseSchema opts)
      as [schema|]; [|reflexivity].
    destruct (safeParse schema (data ctx)); reflexivity.
  - intros ctx.
    destruct (completion (getBeforeFetch opts ctx)) as [ctx'|e] eqn:Hc; [exact I|].
    exact (getBeforeFetchWith_throws _ opts ctx e Hc).
  - discriminate.
Qed.

(** ** More about the serializer *)

Lemma forEach_append_acc {num : Type} {NumOps : JSNumber num}
    (key : string) (elements : list (JSValue num)) :
  forall query,
    forEach_append key elements query
    = (ps ← forEach_append key elements []; Normal (query ++ ps)).
Proof.
  induction elements as [|el rest IH]; intros query; simpl.
  - now rewrite app_nil_r.
  - destruct (toString el) as [s|e]; simpl; [|reflexivity].
    unfold URLSearchParams_append. simpl.
    rewrite (IH (query ++ [(key, s)])), (IH [(key, s)]).
    destruct (forEach_append key rest []) as [ps|e]; simpl; [|reflexivity].
    now rewrite <- app_assoc.
Qed.

Lemma generateQueryString_loop_acc {num : Type} {NumOps : JSNumber num}
    (entries : list (string * JSValue num)) :
  forall query,
    generateQueryString_loop entries query
    = (ps ← generateQueryString_loop entries []; Normal (query ++ ps)).
Proof.
  induction entries as [|[key value] rest IH]; intros query; simpl.
  - now rewrite app_nil_r.
  - assert (Hstep : forall (q : URLSearchParams) (s : string),
               generateQueryString_loop rest (URLSearchParams_append q key s)
               = (ps ← generateQueryString_loop rest []; Normal (q ++ (key, s) :: ps))).
    { intros q s. unfold URLSearchParams_append. rewrite IH.
      destruct (generateQueryString_loop rest []) as [ps|e]; simpl; [|reflexivity].
      now rewrite <- app_assoc. }
    assert (Hscalar : forall v : JSValue num,
               (if ToBoolean v
                then s ← toString v;
                     generateQueryString_loop rest (URLSearchParams_append query key s)
                else generateQueryString_loop rest query)
               = (ps ← (if ToBoolean v
                        then s ← toString v;
                             generateQueryString_loop rest (URLSearchParams_append [] key s)
                        else generateQueryString_loop rest []);
                  Normal (query ++ ps))).
    { intros v. destruct (ToBoolean v); [|apply IH].
      destruct (toString v) as [s|e]; simpl; [|reflexivity].
      rewrite (Hstep query s), (Hstep [] s).
      destruct (generateQueryString_loop rest []); reflexivity. }
    destruct value as [ | | b | n | s | els | props]; try apply Hscalar.
    rewrite forEach_append_acc.
    destruct (forEach_append key els []) as [ps|e]; simpl; [|reflexivity].
    rewrite (IH (query ++ ps)), (IH ps).
    destruct (generateQueryString_loop rest []) as [ps'|e]; simpl; [|reflexivity].
    now rewrite <- app_assoc.
Qed.

Lemma generateQueryString_loop_app {num : Type} {NumOps : JSNumber num}
    (m1 m2 : list (string * JSValue num)) :
  forall query,
    generateQueryString_loop (m1 ++ m2) query
    = (q1 ← generateQueryString_loop m1 query; generateQueryString_loop m2 q1).
Proof.
  induction m1 as [|[key value] rest IH]; intros query; simpl; [reflexivity|].
  assert (Hscalar : forall v : JSValue num,
             (if ToBoolean v
              then s ← toString v;
                   generateQueryString_loop (rest ++ m2) (URLSearchParams_append query key s)
              else generateQueryString_loop (rest ++ m2) query)
             = (q1 ← (if ToBoolean v
                      then s ← toString v;
                           generateQueryString_loop rest (URLSearchParams_append query key s)
                      else generateQueryString_loop rest query);
                generateQueryString_loop m2 q1)).
  { intros v. destruct (ToBoolean v); [|apply IH].
    destruct (toString v) as [s|e]; simpl; [apply IH | reflexivity]. }
  destruct value as [ | | b | n | s | els | props]; try apply Hscalar.
  destruct (forEach_append key els query) as [q|e]; simpl; [apply IH | reflexivity].
Qed.

(** How [generateQueryString] completes, in terms of its loop. *)
Lemma generateQueryString_of_loop {num : Type} {NumOps : JSNumber num}
    (queryData : JSRecord num) :
  generateQueryString queryData
  = (ps ← generateQueryString_loop queryData []; Normal (query_string_of ps)).
Proof.
  unfold generateQueryString, Object_entries, URLSearchParams_new.
  destruct (generateQueryString_loop queryData []) as [ps|e]; simpl; [|reflexivity].
  rewrite URLSearchParams_toString_nonempty. now destruct ps.
Qed.




Lemma generateQueryString_loop_drop_falsy {num : Type} {NumOps : JSNumber num}
    (entries : list (string * JSValue num)) :
  forall query,
    generateQueryString_loop (drop_falsy entries) query
    = generateQueryString_loop entries query.
Proof.
  unfold drop_falsy.
  induction entries as [|[key value] rest IH]; intros query; simpl; [reflexivity|].
  destruct (ToBoolean value) eqn:Hb.
  - simpl. rewrite Hb.
    destruct value as [ | | b | n | s | els | props];
      try (destruct (toString _); simpl; [apply IH | reflexivity]).
    destruct (forEach_append key els query); simpl; [apply IH | reflexivity].
  - destruct value as [ | | b | n | s | els | props]; try discriminate; apply IH.
Qed.

Lemma generateQueryString_ignores_falsy_aux {num : Type} {NumOps : JSNumber num}
    (queryData : JSRecord num) :
  generateQueryString (drop_falsy queryData) = generateQueryString queryData /\
  drop_falsy (List.filter (fun kv => negb (ToBoolean (snd kv))) queryData) = [].
Proof.
  split.
  - unfold generateQueryString, Object_entries.
    now rewrite generateQueryString_loop_drop_falsy.
  - unfold drop_falsy. induction queryData as [|[k v] rest IH]; simpl; [reflexivity|].
    destruct (ToBoolean v) eqn:Hb; simpl; rewrite ?Hb; exact IH.
Qed.

(** X2. A scalar that is falsy ([false], [0], [NaN], the empty string,
    [null], [undefined]) never reaches the query string: leaving such
    entries out of the mapping changes nothing, and the entries left out
    serialize, on their own, to the empty string. *)
Theorem generateQueryString_ignores_falsy {num : Type} {NumOps : JSNumber num}
    (queryData : JSRecord num) :
  generateQueryString (drop_falsy queryData) = generateQueryString queryData /\
  generateQueryString (List.filter (fun kv => negb (ToBoolean (snd kv))) queryData)
  = Normal EmptyString.
Proof.
  split.
  - unfold generateQueryString, Object_entries.
    now rewrite generateQueryString_loop_drop_falsy.
  - rewrite <- (proj1 (generateQueryString_ignores_falsy_aux _)).
    now rewrite (proj2 (generateQueryString_ignores_falsy_aux _)).
Qed.

Lemma string_forallb_app (p : ascii -> bool) (a b : string) :
  string_forallb p (a +:+ b) = string_forallb p a && string_forallb p b.
Proof. induction a as [|c a IH]; simpl; [reflexivity | now rewrite IH, andb_assoc]. Qed.

Lemma serialized_byte_query_bytes (c : ascii) (rest : string) :
  string_forallb query_byte (urlencoded_serialize_bytes (String c rest))
  = string_forallb query_byte (urlencoded_serialize_bytes rest).
Proof. destruct c as [[] [] [] [] [] [] [] []]; reflexivity. Qed.

Lemma serialized_query_bytes (s : string) :
  string_forallb query_byte (urlencoded_serialize_bytes s) = true.
Proof.
  induction s as [|c s IH]; [reflexivity|].
  now rewrite serialized_byte_query_bytes.
Qed.

Lemma piece_query_bytes (p : string * string) : string_forallb query_byte (piece_of p) = true.
Proof.
  destruct p as [name value]. unfold piece_of.
  rewrite !string_forallb_app, !serialized_query_bytes. reflexivity.
Qed.

Lemma toString_query_bytes (query : URLSearchParams) :
  string_forallb query_byte (URLSearchParams_toString query) = true.
Proof.
  change (URLSearchParams_toString query) with (join "&" (map piece_of query)).
  induction query as [|p rest IH]; [reflexivity|].
  destruct rest as [|q rest'].
  - apply piece_query_bytes.
  - change (join "&" (map piece_of (p :: q :: rest')))
      with (piece_of p +:+ "&" +:+ join "&" (map piece_of (q :: rest'))).
    rewrite !string_forallb_app, piece_query_bytes, IH. reflexivity.
Qed.

(** X3. The serializer returns the empty string or a [?] followed by a
    non-empty text, never a lone [?]; and every byte it returns is an
    ASCII letter or digit or one of [* - . _ + % & = ?], so no raw space,
    no control character and no byte of a multi-byte character appears. *)
Theorem generateQueryString_shape {num : Type} {NumOps : JSNumber num}
    (queryData : JSRecord num) :
  match generateQueryString queryData with
  | Normal queryString =>
      (queryString = EmptyString \/
       exists parameters, queryString = String "?" parameters /\ parameters <> EmptyString) /\
      string_forallb query_byte queryString = true
  | Throw _ => arrays_printable queryData = false
  end.
Proof.
  assert (Hthrow : forall e, generateQueryString queryData = Throw e ->
                             arrays_printable queryData = false).
  { intros e He. destruct (arrays_printable queryData) eqn:Hp; [|reflexivity].
    destruct (generateQueryString_total queryData Hp) as [qs Hqs]. congruence. }
  rewrite generateQueryString_of_loop in *.
  destruct (generateQueryString_loop queryData []) as [ps|e]; simpl in *;
    [|exact (Hthrow e eq_refl)].
  destruct ps as [|p rest]; simpl; [split; [now left | reflexivity]|].
  split.
  - right. eexists. split; [reflexivity|].
    intros Hempty.
    pose proof (URLSearchParams_toString_nonempty (p :: rest)) as Hlen.
    rewrite Hempty in Hlen. discriminate.
  - apply toString_query_bytes.
Qed.

Lemma append_assoc (a b c : string) : (a +:+ b) +:+ c = a +:+ b +:+ c.
Proof.
  induction a as [|x a IH]; [reflexivity|].
  change (String x ((a +:+ b) +:+ c) = String x (a +:+ b +:+ c)).
  now rewrite IH.
Qed.

Lemma join_app_nonempty (sep : string) (a b : list string) :
  a <> [] -> b <> [] -> join sep (a ++ b) = join sep a +:+ sep +:+ join sep b.
Proof.
  intros Ha Hb. induction a as [|x a IH]; [contradiction|].
  destruct a as [|y a'].
  - simpl. destruct b; [contradiction | reflexivity].
  - change (join sep ((x :: y :: a') ++ b)) with (x +:+ sep +:+ join sep ((y :: a') ++ b)).
    rewrite IH by discriminate.
    change (join sep (x :: y :: a')) with (x +:+ sep +:+ join sep (y :: a')).
    now rewrite !append_assoc.
Qed.

Lemma query_string_of_app (p1 p2 : URLSearchParams) :
  query_string_of (p1 ++ p2) = join_query (query_string_of p1) (query_string_of p2).
Proof.
  destruct p1 as [|x p1]; [now destruct p2|].
  destruct p2 as [|y p2].
  - rewrite app_nil_r. reflexivity.
  - unfold query_string_of, join_query.
    change ((x :: p1) ++ y :: p2) with (x :: (p1 ++ y :: p2)).
    cbv iota beta match.
    change ("?" +:+ ?s) with (String "?" s). cbv iota beta match.
    change (URLSearchParams_toString ?q) with (join "&" (map piece_of q)).
    change (x :: p1 ++ y :: p2) with ((x :: p1) ++ (y :: p2)).
    rewrite map_app, join_app_nonempty by discriminate.
    reflexivity.
Qed.

(** X4. Serializing one mapping after another. When both parts can be
    serialized, the query string of the whole is the two query strings
    joined by [&] (with one [?] in front); when a part throws, the whole
    throws what the first failing part throws. *)
Theorem generateQueryString_app {num : Type} {NumOps : JSNumber num}
    (m1 m2 : JSRecord num) :
  generateQueryString (m1 ++ m2)
  = match generateQueryString m1, generateQueryString m2 with
    | Normal q1, Normal q2 => Normal (join_query q1 q2)
    | Throw e, _ => Throw e
    | Normal _, Throw e => Throw e
    end.
Proof.
  rewrite !generateQueryString_of_loop, generateQueryString_loop_app.
  destruct (generateQueryString_loop m1 []) as [p1|e1]; simpl; [|reflexivity].
  rewrite generateQueryString_loop_acc.
  destruct (generateQueryString_loop m2 []) as [p2|e2]; simpl; [|reflexivity].
  now rewrite query_string_of_app.
Qed.

(** ** The body cleaner and the body step *)

Lemma removeNullishInObject_filter {num : Type} (obj : JSRecord num) :
  removeNullishInObject obj = List.filter (fun kv => negb (empty_like (snd kv))) obj.
Proof.
  unfold removeNullishInObject, Object_fromEntries, Object_entries, empty_like.
  induction obj as [|[k v] rest IH]; simpl; [reflexivity|].
  rewrite IH. destruct v as [ | | b | n | s | els | props]; try reflexivity.
  now destruct s.
Qed.

Lemma removeNullishInObject_idempotent {num : Type} (obj : JSRecord num) :
  removeNullishInObject (removeNullishInObject obj) = removeNullishInObject obj.
Proof.
  rewrite !removeNullishInObject_filter.
  induction obj as [|kv rest IH]; simpl; [reflexivity|].
  destruct (negb (empty_like (snd kv))) eqn:Hkv; simpl; rewrite ?Hkv, IH; reflexivity.
Qed.

(** X5. The body cleaner is idempotent, nothing it returns is the empty
    string, [null] or [undefined], and it returns entries of the mapping
    in the mapping's order, so distinct keys stay distinct. *)
Theorem removeNullishInObject_cleans {num : Type} (obj : JSRecord num) :
  removeNullishInObject (removeNullishInObject obj) = removeNullishInObject obj /\
  forallb (fun kv => negb (empty_like (snd kv))) (removeNullishInObject obj) = true /\
  sublist (removeNullishInObject obj) obj /\
  sublist (Object_keys (removeNullishInObject obj)) (Object_keys obj).
Proof.
  rewrite !removeNullishInObject_filter.
  repeat split.
  - induction obj as [|kv rest IH]; simpl; [reflexivity|].
    destruct (negb (empty_like (snd kv))) eqn:Hkv; simpl; rewrite ?Hkv, IH; reflexivity.
  - induction obj as [|kv rest IH]; simpl; [reflexivity|].
    destruct (negb (empty_like (snd kv))) eqn:Hkv; simpl; rewrite ?Hkv; exact IH.
  - induction obj as [|kv rest IH]; simpl; [constructor|].
    destruct (negb (empty_like (snd kv))); now constructor.
  - unfold Object_keys.
    induction obj as [|kv rest IH]; simpl; [constructor|].
    destruct (negb (empty_like (snd kv))); simpl; now constructor.
Qed.

(** X6. The two serializers disagree on [false] and on numbers that are
    falsy: a mapping that has only such values gives no query string at
    all, while the body cleaner keeps every one of its entries. *)
Theorem falsy_values_query_and_body {num : Type} {NumOps : JSNumber num}
    (obj : JSRecord num) :
  forallb (fun kv => negb (ToBoolean (snd kv)) && negb (empty_like (snd kv))) obj = true ->
  generateQueryString obj = Normal EmptyString /\
  removeNullishInObject obj = obj.
Proof.
  intros H. split.
  - rewrite <- (proj1 (generateQueryString_ignores_falsy_aux obj)).
    replace (drop_falsy obj) with (@nil (string * JSValue num)); [reflexivity|].
    unfold drop_falsy. induction obj as [|kv rest IH]; simpl in *; [reflexivity|].
    apply andb_true_iff in H as [Hkv Hrest]. apply andb_true_iff in Hkv as [Hb _].
    apply negb_true_iff in Hb. rewrite Hb. now apply IH.
  - rewrite removeNullishInObject_filter.
    induction obj as [|kv rest IH]; simpl in *; [reflexivity|].
    apply andb_true_iff in H as [Hkv Hrest]. apply andb_true_iff in Hkv as [_ He].
    rewrite He. now rewrite (IH Hrest).
Qed.

Lemma falsy_values_query_and_body_witness :
  generateQueryString (num := Z) [("draft", JSBool false); ("views", JSNum 0%Z)]
  = Normal EmptyString /\
  removeNullishInObject (num := Z) [("draft", JSBool false); ("views", JSNum 0%Z)]
  = [("draft", JSBool false); ("views", JSNum 0%Z)].
Proof.
  apply (falsy_values_query_and_body [("draft", JSBool false); ("views", JSNum 0%Z)]).
  reflexivity.
Defined.

Lemma JSON_stringify_object {num : Type} {NumOps : JSNumber num}
    (properties : list (string * JSValue num)) :
  exists text, JSON_stringify (JSObject properties) = Some (String "{" text).
Proof. simpl. eexists. reflexivity. Qed.

(** X7. The body step, given a mapping, always completes without effect.
    It sets a body, which is a JSON object text, overwrites [Content-Type]
    with [application/json], and leaves the URL, the verb and every other
    header alone; entries that are empty, [null] or [undefined] make no
    difference to what it does; and running it again changes nothing. *)
Theorem getJsonFormatBeforeFetch_sets_body {num : Type} {NumOps : JSNumber num}
    (currentRawData : JSRecord num) (ctx : BeforeFetchContext) :
  exists (ctx' : BeforeFetchContext) (text : string),
    getJsonFormatBeforeFetch (Some currentRawData) ctx = ([], Normal ctx') /\
    body (options ctx') = Some (String "{" text) /\
    headers (options ctx') = <["Content-Type" := "application/json"]> (headers (options ctx)) /\
    url ctx' = url ctx /\
    method (options ctx') = method (options ctx) /\
    getJsonFormatBeforeFetch (Some (removeNullishInObject currentRawData)) ctx
    = ([], Normal ctx') /\
    getJsonFormatBeforeFetch (Some currentRawData) ctx' = ([], Normal ctx').
Proof.
  destruct (JSON_stringify_object (removeNullishInObject currentRawData)) as [text Htext].
  eexists _, text. split; [reflexivity|].
  repeat split.
  - exact Htext.
  - unfold getJsonFormatBeforeFetch.
    now rewrite removeNullishInObject_idempotent.
  - unfold getJsonFormatBeforeFetch, set_body, set_headers. simpl.
    now rewrite insert_insert_eq.
Qed.

(** ** The before-request chain as a whole *)

Lemma append_empty_r (s : string) : s +:+ EmptyString = s.
Proof.
  induction s as [|c s IH]; [reflexivity|].
  change (String c (s +:+ EmptyString) = String c s). now rewrite IH.
Qed.

Lemma set_url_same (ctx : BeforeFetchContext) : set_url ctx (url ctx +:+ EmptyString) = ctx.
Proof. rewrite append_empty_r. now destruct ctx. Qed.

Lemma Hook_bind_normal {A B : Type} (a : A) (f : A -> Hook B) :
  ((([], Normal a) : Hook A) ≫= f) = f a.
Proof. exact (Hook_bind_ret a f). Qed.

Lemma getQueryBeforeFetch_spec {num : Type} {NumOps : JSNumber num}
    (query : option (JSRecord num)) (ctx : BeforeFetchContext) :
  getQueryBeforeFetch query ctx
  = match query_outcome query with
    | Normal qs => ([], Normal (set_url ctx (url ctx +:+ qs)))
    | Throw e => ([], Throw e)
    end.
Proof.
  unfold getQueryBeforeFetch, query_outcome.
  destruct query as [[|kv rest]|]; simpl.
  - now rewrite set_url_same.
  - destruct (generateQueryString (kv :: rest)); reflexivity.
  - now rewrite set_url_same.
Qed.

(** What the chain of the current module does, in one step. *)
Lemma getBeforeFetch_spec {num : Type} {NumOps : JSNumber num}
    (opts : UseCustomFetchOptions num) (ctx : BeforeFetchContext) :
  getBeforeFetch opts ctx
  = match query_outcome (query opts) with
    | Normal qs => ([], Normal (before_result opts ctx qs))
    | Throw e => ([], Throw e)
    end.
Proof.
  unfold getBeforeFetch, getBeforeFetchWith, before_result.
  change (fetchCurryFn ctx (?f :: ?g :: ?rest))
    with (acc ← f ctx; acc' ← g acc; fetchCurryFn acc' rest).
  assert (Hauth : forall c,
             getAuthorizationBeforeFetchWith token (isBearerTokenRequired opts) c
             = mret (set_headers c
                       (if default false (isBearerTokenRequired opts)
                        then <["Authorization" := "Bearer <token>"]> (headers (options c))
                        else headers (options c)))).
  { intros c. unfold getAuthorizationBeforeFetchWith.
    destruct (default false (isBearerTokenRequired opts)); simpl; [reflexivity|].
    now destruct c as [u [m h b]]. }
  rewrite Hauth, Hook_bind_ret, getQueryBeforeFetch_spec.
  destruct (query_outcome (query opts)) as [qs|e]; [|reflexivity].
  rewrite Hook_bind_normal. simpl.
  unfold getJsonFormatBeforeFetch.
  destruct (json opts) as [j|]; reflexivity.
Qed.

Lemma Hook_bind_assoc {A B C : Type} (h : Hook A) (f : A -> Hook B) (g : B -> Hook C) :
  ((h ≫= f) ≫= g) = (h ≫= fun a => f a ≫= g).
Proof.
  unfold mbind, Hook_bind. destruct h as [t1 [a|e]]; [|reflexivity].
  destruct (f a) as [t2 [b|e]]; [|reflexivity].
  destruct (g b) as [t3 c]. now rewrite app_assoc.
Qed.

Lemma Hook_bind_ext {A B : Type} (h : Hook A) (f g : A -> Hook B) :
  (forall a, f a = g a) -> (h ≫= f) = (h ≫= g).
Proof.
  intros Hfg. unfold mbind, Hook_bind. destruct h as [t [a|e]]; [|reflexivity].
  now rewrite Hfg.
Qed.

Lemma fetchCurryFn_cons {T : Type} (ctx : T) (f : T -> Hook T) (rest : list (T -> Hook T)) :
  fetchCurryFn ctx (f :: rest) = (f ctx ≫= fun acc => fetchCurryFn acc rest).
Proof. reflexivity. Qed.

(** Steps that commute pairwise can be folded in any order. *)
Lemma fetchCurryFn_permutation {T : Type} (l l' : list (T -> Hook T)) :
  Permutation l l' ->
  (forall f g, In f l -> In g l -> commute f g) ->
  forall ctx, fetchCurryFn ctx l = fetchCurryFn ctx l'.
Proof.
  induction 1 as [|x l l' Hperm IH|x y l|l l' l'' H1 IH1 H2 IH2]; intros Hc ctx.
  - reflexivity.
  - rewrite !fetchCurryFn_cons. apply Hook_bind_ext. intros a.
    apply IH. intros f g Hf Hg. apply Hc; now right.
  - change (fetchCurryFn ctx (y :: x :: l))
      with (y ctx ≫= fun a => x a ≫= fun a' => fetchCurryFn a' l).
    change (fetchCurryFn ctx (x :: y :: l))
      with (x ctx ≫= fun a => y a ≫= fun a' => fetchCurryFn a' l).
    rewrite <- !Hook_bind_assoc.
    rewrite (Hc y x); [reflexivity| |]; simpl; auto.
  - rewrite IH1 by assumption. apply IH2.
    intros f g Hf Hg.
    apply Hc; (eapply Permutation_in; [symmetry; exact H1 | assumption]).
Qed.

Lemma before_steps_commute {num : Type} {NumOps : JSNumber num}
    (opts : UseCustomFetchOptions num) :
  forall f g,
    In f [getAuthorizationBeforeFetch (isBearerTokenRequired opts);
          getQueryBeforeFetch (query opts);
          getJsonFormatBeforeFetch (json opts)] ->
    In g [getAuthorizationBeforeFetch (isBearerTokenRequired opts);
          getQueryBeforeFetch (query opts);
          getJsonFormatBeforeFetch (json opts)] ->
    commute f g.
Proof.
  assert (Ha : forall c,
             getAuthorizationBeforeFetch (isBearerTokenRequired opts) c
             = mret (set_headers c
                       (if default false (isBearerTokenRequired opts)
                        then <["Authorization" := "Bearer <token>"]> (headers (options c))
                        else headers (options c)))).
  { intros c. unfold getAuthorizationBeforeFetch, getAuthorizationBeforeFetchWith.
    destruct (default false (isBearerTokenRequired opts)); simpl; [reflexivity|].
    now destruct c as [u [m h b]]. }
  assert (Hj : forall c,
             getJsonFormatBeforeFetch (json opts) c
             = mret (match json opts with
                     | Some j => set_body (set_headers c
                                   (<["Content-Type" := "application/json"]> (headers (options c))))
                                   (JSON_stringify (JSObject (removeNullishInObject j)))
                     | None => c
                     end)).
  { intros c. unfold getJsonFormatBeforeFetch. now destruct (json opts). }
  assert (Haq : commute (getAuthorizationBeforeFetch (isBearerTokenRequired opts))
                        (getQueryBeforeFetch (query opts))).
  { intros c. rewrite Ha, Hook_bind_ret, !getQueryBeforeFetch_spec.
    destruct (query_outcome (query opts)); [|reflexivity].
    now rewrite Hook_bind_normal, Ha. }
  assert (Haj : commute (getAuthorizationBeforeFetch (isBearerTokenRequired opts))
                        (getJsonFormatBeforeFetch (json opts))).
  { intros c. rewrite Ha, Hj, !Hook_bind_ret, Ha, Hj.
    destruct (json opts), (default false (isBearerTokenRequired opts));
      unfold set_body, set_headers; simpl; try reflexivity.
    now rewrite insert_insert_ne by discriminate. }
  assert (Hqj : commute (getQueryBeforeFetch (query opts))
                        (getJsonFormatBeforeFetch (json opts))).
  { intros c. rewrite Hj, Hook_bind_ret, !getQueryBeforeFetch_spec.
    destruct (query_outcome (query opts)); [|reflexivity].
    rewrite Hook_bind_normal, Hj. now destruct (json opts). }
  intros f g Hf Hg. simpl in Hf, Hg.
  destruct Hf as [<-|[<-|[<-|[]]]], Hg as [<-|[<-|[<-|[]]]];
    try (intros c; reflexivity); try assumption;
    intros c; symmetry; first [apply Haq | apply Haj | apply Hqj].
Qed.

(** X8. The three steps of the before-request chain can be run in any
    order: every arrangement of them gives the request, or the exception,
    that the chain gives. *)
Theorem getBeforeFetch_any_order {num : Type} {NumOps : JSNumber num}
    (opts : UseCustomFetchOptions num)
    (steps : list (BeforeFetchContext -> Hook BeforeFetchContext))
    (ctx : BeforeFetchContext) :
  Permutation [getAuthorizationBeforeFetch (isBearerTokenRequired opts);
               getQueryBeforeFetch (query opts);
               getJsonFormatBeforeFetch (json opts)] steps ->
  fetchCurryFn ctx steps = getBeforeFetch opts ctx.
Proof.
  intros Hperm. symmetry.
  exact (fetchCurryFn_permutation _ _ Hperm (before_steps_commute opts) ctx).
Qed.

Lemma getBeforeFetch_any_order_witness :
  fetchCurryFn (get_request "/posts")
    [getJsonFormatBeforeFetch (json bearer_options);
     getQueryBeforeFetch (query bearer_options);
     getAuthorizationBeforeFetch (isBearerTokenRequired bearer_options)]
  = getBeforeFetch bearer_options (get_request "/posts").
Proof.
  apply (getBeforeFetch_any_order bearer_options).
  exact (Permutation_rev
           [getAuthorizationBeforeFetch (isBearerTokenRequired bearer_options);
            getQueryBeforeFetch (query bearer_options);
            getJsonFormatBeforeFetch (json bearer_options)]).
Defined.

(** X9. What the before-request chain leaves alone. It performs no effect
    and either throws what the serializer throws or returns a request
    with the same verb, whose URL is the old URL followed by the query
    string, in which every header that was set is still set, and in which
    no header other than [Authorization] and [Content-Type] has changed. *)
Theorem getBeforeFetch_frame {num : Type} {NumOps : JSNumber num}
    (opts : UseCustomFetchOptions num) (ctx : BeforeFetchContext) :
  effects (getBeforeFetch opts ctx) = [] /\
  match completion (getBeforeFetch opts ctx), query_outcome (query opts) with
  | Normal ctx', Normal qs =>
      url ctx' = url ctx +:+ qs /\
      method (options ctx') = method (options ctx) /\
      dom (headers (options ctx)) ⊆ dom (headers (options ctx')) /\
      (forall name : string,
          name = "Authorization" \/ name = "Content-Type" \/
          headers (options ctx') !! name = headers (options ctx) !! name)
  | Throw e, Throw e' => e = e'
  | _, _ => False
  end.
Proof.
  rewrite getBeforeFetch_spec.
  destruct (query_outcome (query opts)) as [qs|e]; simpl; [|auto].
  split; [reflexivity|]. repeat split.
  - destruct (json opts), (default false (isBearerTokenRequired opts));
      rewrite ?dom_insert; set_solver.
  - intros name.
    destruct (decide (name = "Authorization")) as [->|Ha]; [now left|].
    destruct (decide (name = "Content-Type")) as [->|Hc]; [now right; left|].
    right; right.
    destruct (json opts), (default false (isBearerTokenRequired opts));
      rewrite ?lookup_insert_ne by congruence; reflexivity.
Qed.

(** X10. Options that ask for nothing leave the request as it is: with
    the auth flag absent or false, no body mapping, and a query that is
    absent or adds no parameter, the chain returns the very context it
    was given. *)
Theorem getBeforeFetch_inert {num : Type} {NumOps : JSNumber num}
    (opts : UseCustomFetchOptions num) (ctx : BeforeFetchContext) :
  default false (isBearerTokenRequired opts) = false ->
  json opts = None ->
  query_outcome (query opts) = Normal EmptyString ->
  getBeforeFetch opts ctx = ([], Normal ctx).
Proof.
  intros Hflag Hjson Hquery.
  rewrite getBeforeFetch_spec, Hquery. unfold before_result.
  rewrite Hflag, Hjson, append_empty_r. now destruct ctx as [u [m h b]].
Qed.

Lemma getBeforeFetch_inert_witness :
  getBeforeFetch (num := Z)
    {| isBearerTokenRequired := Some false;
       query := Some [("page", JSNum 0%Z); ("q", JSString EmptyString); ("tags", JSArray [])];
       json := None; responseSchema := Some postsSchema; errorResponseSchema := None |}
    (get_request "/posts")
  = ([], Normal (get_request "/posts")).
Proof.
  apply (getBeforeFetch_inert
           {| isBearerTokenRequired := Some false;
              query := Some [("page", JSNum 0%Z); ("q", JSString EmptyString);
                             ("tags", JSArray [])];
              json := None; responseSchema := Some postsSchema;
              errorResponseSchema := None |}
           (get_request "/posts")); reflexivity.
Defined.

Lemma generateQueryString_copies_agree_aux {num : Type} {NumOps : JSNumber num}
    (queryData : JSRecord num) :
  Legacy.generateQueryString queryData = generateQueryString queryData.
Proof.
  unfold Legacy.generateQueryString, generateQueryString.
  now rewrite Legacy_loop_agree.
Qed.

(** X11. The older module and the current one agree on what they share:
    the query step of the older module, which has no guard for a mapping
    without keys, does what the current query step does on every mapping,
    and the older chain does what the current chain does on the same
    options with no body mapping. *)
Theorem Legacy_chain_agrees {num : Type} {NumOps : JSNumber num}
    (opts : Legacy.UseCustomFetchOptions num) (ctx : BeforeFetchContext) :
  Legacy.getQueryBeforeFetch (Legacy.query opts) ctx
  = getQueryBeforeFetch (Legacy.query opts) ctx /\
  Legacy.getAuthorizationBeforeFetch (Legacy.isBearerTokenRequired opts) ctx
  = getAuthorizationBeforeFetch (Legacy.isBearerTokenRequired opts) ctx /\
  Legacy.getBeforeFetch opts ctx = getBeforeFetch (of_legacy opts) ctx.
Proof.
  assert (Hq : forall c, Legacy.getQueryBeforeFetch (Legacy.query opts) c
                         = getQueryBeforeFetch (Legacy.query opts) c).
  { intros c. rewrite getQueryBeforeFetch_spec.
    unfold Legacy.getQueryBeforeFetch, query_outcome.
    destruct (Legacy.query opts) as [q|]; simpl.
    - rewrite generateQueryString_copies_agree_aux.
      destruct (generateQueryString q); reflexivity.
    - unfold Legacy.noActionContext. now rewrite set_url_same. }
  assert (Ha : forall c,
             Legacy.getAuthorizationBeforeFetch (Legacy.isBearerTokenRequired opts) c
             = getAuthorizationBeforeFetch (Legacy.isBearerTokenRequired opts) c).
  { intros c. reflexivity. }
  split; [apply Hq | split; [apply Ha|]].
  unfold Legacy.getBeforeFetch, getBeforeFetch, getBeforeFetchWith, of_legacy; simpl.
  change (Legacy.fetchCurryFn ctx [?f; ?g]) with (a ← f ctx; b ← g a; mret b).
  change (fetchCurryFn ctx [?f; ?g; ?h]) with (a ← f ctx; b ← g a; c ← h b; mret c).
  apply Hook_bind_ext. intros a. rewrite Hq.
  apply Hook_bind_ext. intros b. reflexivity.
Qed.

(** ** The after-response chain and the error hook *)

(** X12. A response that passes validation is handed on as it came: with
    a success schema declared and an ok response whose data the schema
    accepts, the after-response chain prints nothing and returns the
    context with its own data, not with what the schema parsed out of
    it. *)
Theorem getAfterFetch_accepts {num : Type} (MODE : string)
    (opts : UseCustomFetchOptions num) (schema : ZodTypeAny num)
    (ctx : AfterFetchContext num) (parsed : JSValue num) :
  responseSchema opts = Some schema ->
  ok (response ctx) = true ->
  safeParse schema (data ctx) = SafeParseSuccess parsed ->
  getAfterFetch MODE opts ctx = ([], Normal ctx).
Proof.
  intros Hschema Hok Hparse.
  now rewrite getAfterFetch_spec, Hok, Hschema, Hparse.
Qed.

Lemma getAfterFetch_accepts_witness :
  getAfterFetch "development" error_options
    {| response := {| ok := true; status := 200 |};
       data := JSObject (post "42" "title" 7 ++ [("draft", JSBool true)]) |}
  = ([], Normal {| response := {| ok := true; status := 200 |};
                   data := JSObject (post "42" "title" 7 ++ [("draft", JSBool true)]) |}).
Proof.
  apply (getAfterFetch_accepts "development" error_options postsSchema
           {| response := {| ok := true; status := 200 |};
              data := JSObject (post "42" "title" 7 ++ [("draft", JSBool true)]) |}
           (JSObject (post "42" "title" 7))); reflexivity.
Defined.

(** X13. Which schema is used depends on the status alone: an ok response
    is never held against the error schema and a failed one never against
    the success schema, and the auth flag, the query and the body mapping
    play no part. The chain does what it does on options that carry only
    the schema the status selects. *)
Theorem getAfterFetch_schema_by_status {num : Type} (MODE : string)
    (opts : UseCustomFetchOptions num) (ctx : AfterFetchContext num) :
  getAfterFetch MODE opts ctx
  = getAfterFetch MODE
      {| isBearerTokenRequired := None; query := None; json := None;
         responseSchema := if ok (response ctx) then responseSchema opts else None;
         errorResponseSchema := if ok (response ctx) then None else errorResponseSchema opts |}
      ctx.
Proof.
  rewrite !getAfterFetch_spec. simpl. now destruct (ok (response ctx)).
Qed.

(** X14. What the two response-side chains print. In production mode
    neither prints anything; in any mode each of them either prints
    nothing or prints exactly one group holding one [ZodError], and
    neither ever calls [ctx.cancel]. *)
Theorem response_chains_console {num : Type} (MODE : string)
    (JSON_parse : string -> option (JSValue num))
    (opts : UseCustomFetchOptions num)
    (actx : AfterFetchContext num) (ectx : CustomFetchErrorCtx num) :
  effects (getAfterFetch "production" opts actx) = [] /\
  effects (getOnFetchError "production" JSON_parse opts ectx) = [] /\
  (effects (getAfterFetch MODE opts actx) = [] \/
   exists label err,
     effects (getAfterFetch MODE opts actx)
     = [console_group label "color: yellow;"; console_log err; console_groupEnd]) /\
  (effects (getOnFetchError MODE JSON_parse opts ectx) = [] \/
   exists err,
     effects (getOnFetchError MODE JSON_parse opts ectx)
     = [console_group "%c [api error] type error" "color: yellow;";
        console_log err; console_groupEnd]).
Proof.
  rewrite !getAfterFetch_spec, !getOnFetchError_spec.
  split; [|split; [|split]].
  - destruct (if ok (response actx) then _ else _) as [s|]; [|reflexivity].
    destruct (safeParse s (data actx)); reflexivity.
  - destruct (errorResponseSchema opts) as [s|]; [|reflexivity].
    destruct (parsed_error_data JSON_parse ectx) as [d|]; [|reflexivity].
    destruct (safeParse s d); reflexivity.
  - destruct (if ok (response actx) then _ else _) as [s|]; [|now left].
    destruct (safeParse s (data actx)) as [d|err]; [now left|].
    unfold type_error_log. destruct (String.eqb MODE "production"); [now left|].
    right. eexists _, _. reflexivity.
  - destruct (errorResponseSchema opts) as [s|]; [|now left].
    destruct (parsed_error_data JSON_parse ectx) as [d|]; [|now left].
    destruct (safeParse s d) as [d'|err]; [now left|].
    unfold type_error_log. destruct (String.eqb MODE "production"); [now left|].
    right. eexists. reflexivity.
Qed.

(** X15. When the error hook throws. It throws exactly when an error
    schema is declared and the data is a text [JSON.parse] refuses;
    otherwise, whatever the tag and the response, it returns the context
    it was given. *)
Theorem getOnFetchError_throws_exactly {num : Type} (MODE : string)
    (JSON_parse : string -> option (JSValue num))
    (opts : UseCustomFetchOptions num) (ctx : CustomFetchErrorCtx num) :
  match completion (getOnFetchError MODE JSON_parse opts ctx) with
  | Throw e =>
      e = SyntaxError "Unexpected token in JSON" /\
      exists schema text,
        errorResponseSchema opts = Some schema /\
        err_data ctx = JSString text /\
        JSON_parse text = None
  | Normal ctx' =>
      ctx' = ctx /\
      (errorResponseSchema opts = None \/
       exists responseData, parsed_error_data JSON_parse ctx = Some responseData)
  end.
Proof.
  rewrite getOnFetchError_spec.
  destruct (errorResponseSchema opts) as [schema|] eqn:Hs; [|simpl; auto].
  destruct (parsed_error_data JSON_parse ctx) as [d|] eqn:Hd.
  - destruct (safeParse schema d); simpl; eauto.
  - simpl. split; [reflexivity|]. unfold parsed_error_data in Hd.
    destruct (err_data ctx) as [ | | b | n | text | els | props]; try discriminate.
    eauto.
Qed.

(** X16. The classification steps of the error hook are inert: on two
    contexts with the same data, whatever their tags and responses, the
    hook prints the same and either returns each context unchanged or
    throws the same exception for both. *)
Theorem getOnFetchError_reads_data_only {num : Type} (MODE : string)
    (JSON_parse : string -> option (JSValue num))
    (opts : UseCustomFetchOptions num) (ctx1 ctx2 : CustomFetchErrorCtx num) :
  err_data ctx1 = err_data ctx2 ->
  effects (getOnFetchError MODE JSON_parse opts ctx1)
  = effects (getOnFetchError MODE JSON_parse opts ctx2) /\
  ((completion (getOnFetchError MODE JSON_parse opts ctx1) = Normal ctx1 /\
    completion (getOnFetchError MODE JSON_parse opts ctx2) = Normal ctx2) \/
   exists e,
     completion (getOnFetchError MODE JSON_parse opts ctx1) = Throw e /\
     completion (getOnFetchError MODE JSON_parse opts ctx2) = Throw e).
Proof.
  intros Hdata. rewrite !getOnFetchError_spec. unfold parsed_error_data.
  rewrite Hdata.
  destruct (errorResponseSchema opts) as [schema|]; [|simpl; auto].
  destruct (match err_data ctx2 with JSString text => JSON_parse text | other => Some other end)
    as [d|]; [|simpl; eauto].
  destruct (safeParse schema d); simpl; auto.
Qed.

Lemma getOnFetchError_reads_data_only_witness :
  effects (getOnFetchError "development" JSON_parse_int error_options not_found_error_ctx)
  = effects (getOnFetchError "development" JSON_parse_int error_options
               {| err_data := JSString not_found_text; err_response := None;
                  error := ABORT_ERROR |}) /\
  ((completion (getOnFetchError "development" JSON_parse_int error_options not_found_error_ctx)
    = Normal not_found_error_ctx /\
    completion (getOnFetchError "development" JSON_parse_int error_options
                  {| err_data := JSString not_found_text; err_response := None;
                     error := ABORT_ERROR |})
    = Normal {| err_data := JSString not_found_text; err_response := None;
                error := ABORT_ERROR |}) \/
   exists e,
     completion (getOnFetchError "development" JSON_parse_int error_options not_found_error_ctx)
     = Throw e /\
     completion (getOnFetchError "development" JSON_parse_int error_options
                   {| err_data := JSString not_found_text; err_response := None;
                      error := ABORT_ERROR |})
     = Throw e).
Proof.
  apply (getOnFetchError_reads_data_only "development" JSON_parse_int error_options
           not_found_error_ctx
           {| err_data := JSString not_found_text; err_response := None;
              error := ABORT_ERROR |}).
  reflexivity.
Defined.

(** ** The posts module *)

Lemma postsSchema_success_shape (v parsed : JSValue Z) :
  safeParse postsSchema v = SafeParseSuccess parsed ->
  exists properties id title views,
    v = JSObject properties /\
    get_property properties "id" = JSString id /\
    get_property properties "title" = JSString title /\
    get_property properties "views" = JSNum views /\
    parsed = JSObject (post id title views).
Proof.
  destruct v as [ | | b | n | s | els | properties]; try discriminate.
  simpl. unfold zod_string, zod_number.
  destruct (get_property properties "id") as [ | | | | id | | ] eqn:Hid; try discriminate.
  destruct (get_property properties "title") as [ | | | | title | | ] eqn:Ht;
    try discriminate.
  destruct (get_property properties "views") as [ | | | views | | | ] eqn:Hvw;
    try discriminate.
  simpl. intros H. injection H as <-.
  exists properties, id, title, views. auto.
Qed.

(** X17. [postsSchema] accepts exactly the objects whose [id] and [title]
    are strings and whose [views] is a number. What it parses out of one
    is the post alone, its other properties stripped, and parsing that
    again gives the same. *)
Theorem postsSchema_accepts_posts (v : JSValue Z) :
  match safeParse postsSchema v with
  | SafeParseSuccess parsed =>
      exists properties id title views,
        v = JSObject properties /\
        get_property properties "id" = JSString id /\
        get_property properties "title" = JSString title /\
        get_property properties "views" = JSNum views /\
        parsed = JSObject (post id title views) /\
        safeParse postsSchema parsed = SafeParseSuccess parsed
  | SafeParseError issues =>
      issues <> [] /\
      ~ exists properties id title views,
          v = JSObject properties /\
          get_property properties "id" = JSString id /\
          get_property properties "title" = JSString title /\
          get_property properties "views" = JSNum views
  end.
Proof.
  destruct (safeParse postsSchema v) as [parsed|issues] eqn:Hv.
  - destruct (postsSchema_success_shape v parsed Hv)
      as (properties & id & title & views & -> & Hid & Ht & Hvw & ->).
    exists properties, id, title, views. repeat split; assumption.
  - split.
    + destruct v as [ | | b | n | s | els | properties]; simpl in Hv;
        try (injection Hv as <-; discriminate).
      destruct (zod_string ["id"] _ ++ zod_string ["title"] _ ++ zod_number ["views"] _);
        [discriminate | injection Hv as <-; discriminate].
    + intros (properties & id & title & views & -> & Hid & Ht & Hvw).
      simpl in Hv. rewrite Hid, Ht, Hvw in Hv. discriminate.
Qed.

Lemma zod_array_items_success (schema : ZodTypeAny Z) (items : list (JSValue Z)) :
  forall index,
    snd (zod_array_items schema items index)
    = forallb (fun item => success (safeParse schema item)) items /\
    (snd (zod_array_items schema items index) = true ->
     length (fst (fst (zod_array_items schema items index))) = length items).
Proof.
  induction items as [|item rest IH]; intros index; simpl; [auto|].
  specialize (IH (S index)).
  destruct (zod_array_items schema rest (S index)) as [[parsed_rest issues_rest] valid_rest].
  simpl in IH. destruct IH as [Hvalid Hlen].
  destruct (safeParse schema item) as [parsed|issues]; simpl.
  - split; [exact Hvalid|]. intros Hv. now rewrite (Hlen Hv).
  - split; [reflexivity | discriminate].
Qed.

Lemma zod_array_success (schema : ZodTypeAny Z) (items : list (JSValue Z)) :
  success (safeParse (zod_array schema) (JSArray items))
  = forallb (fun item => success (safeParse schema item)) items.
Proof.
  simpl. destruct (zod_array_items_success schema items 0) as [Hvalid _].
  destruct (zod_array_items schema items 0) as [[parsed issues] valid].
  simpl in Hvalid. rewrite <- Hvalid. now destruct valid.
Qed.

(** X18. The array schema of [getPosts] accepts an array exactly when
    the item schema accepts every item of it (so the empty array passes),
    returns as many parsed items as it was given, and rejects whatever is
    not an array, a single post included. *)
Theorem zod_array_accepts_all_or_nothing (schema : ZodTypeAny Z) (v : JSValue Z) :
  success (safeParse (zod_array schema) v)
  = match v with
    | JSArray items => forallb (fun item => success (safeParse schema item)) items
    | _ => false
    end /\
  match safeParse (zod_array schema) v, v with
  | SafeParseSuccess (JSArray parsed), JSArray items => length parsed = length items
  | SafeParseSuccess _, _ => False
  | SafeParseError _, _ => True
  end.
Proof.
  destruct v as [ | | b | n | s | items | props]; simpl;
    try (split; [reflexivity | exact I]).
  destruct (zod_array_items_success schema items 0) as [Hvalid Hlen].
  destruct (zod_array_items schema items 0) as [[parsed issues] valid].
  simpl in Hvalid, Hlen. rewrite <- Hvalid.
  destruct valid; simpl; auto.
Qed.

Lemma getAfterFetch_completion {num : Type} (MODE : string)
    (opts : UseCustomFetchOptions num) (ctx : AfterFetchContext num) :
  completion (getAfterFetch MODE opts ctx)
  = match (if ok (response ctx) then responseSchema opts else errorResponseSchema opts) with
    | None => Normal ctx
    | Some schema =>
        if success (safeParse schema (data ctx)) then Normal ctx
        else Throw (TypeError "TYPE_ERROR")
    end.
Proof.
  rewrite getAfterFetch_spec.
  destruct (if ok (response ctx) then _ else _) as [schema|]; [|reflexivity].
  destruct (safeParse schema (data ctx)); reflexivity.
Qed.

Section PostsFacts.
Variable VITE_APP_API : string.
Variable MODE : string.
Variable JSON_parse : string -> option (JSValue Z).

(** X19. Creating or updating a post whose title is empty sends a body
    the module's own schema rejects: the post itself passes [postsSchema],
    but the body cleaner drops the empty title, so the body holds the
    [id] and the [views] only and [postsSchema] reports [title] as
    required. *)
Theorem posts_empty_title_dropped (id : string) (views : Z) (ctx : BeforeFetchContext) :
  id <> EmptyString ->
  success (safeParse postsSchema (JSObject (post id EmptyString views))) = true /\
  exists ctx' : BeforeFetchContext,
    beforeFetch (fetch_config (postPosts VITE_APP_API MODE JSON_parse (post id EmptyString views))) ctx
    = ([], Normal ctx') /\
    beforeFetch (fetch_config (updatePosts VITE_APP_API MODE JSON_parse id (post id EmptyString views))) ctx
    = ([], Normal ctx') /\
    body (options ctx')
    = JSON_stringify (JSObject [("id", JSString id); ("views", JSNum views)]) /\
    safeParse postsSchema (JSObject [("id", JSString id); ("views", JSNum views)])
    = SafeParseError [ {| issue_path := ["title"]; issue_message := "Required" |} ].
Proof.
  intros Hid. split; [reflexivity|].
  eexists. split; [reflexivity|]. split; [reflexivity|].
  split; [|reflexivity].
  destruct id as [|c id]; [contradiction | reflexivity].
Qed.

(** X20. No operation of the posts module asks for the bearer token or
    sends a query. The before-request hook of listing, reading and
    deleting returns the request untouched; the hook of creating and
    updating sets the JSON body and [Content-Type] and leaves the URL and
    the [Authorization] header as they are. None of them calls
    [ctx.cancel]. *)
Theorem posts_requests_unauthenticated (id : string) (newPosts : JSRecord Z)
    (ctx : BeforeFetchContext) :
  beforeFetch (fetch_config (getPosts VITE_APP_API MODE JSON_parse)) ctx = ([], Normal ctx) /\
  beforeFetch (fetch_config (getPost VITE_APP_API MODE JSON_parse id)) ctx = ([], Normal ctx) /\
  beforeFetch (fetch_config (snd (deletePosts VITE_APP_API MODE JSON_parse id))) ctx = ([], Normal ctx) /\
  exists ctx' : BeforeFetchContext,
    beforeFetch (fetch_config (postPosts VITE_APP_API MODE JSON_parse newPosts)) ctx = ([], Normal ctx') /\
    beforeFetch (fetch_config (updatePosts VITE_APP_API MODE JSON_parse id newPosts)) ctx = ([], Normal ctx') /\
    url ctx' = url ctx /\
    headers (options ctx') !! "Authorization" = headers (options ctx) !! "Authorization" /\
    headers (options ctx') !! "Content-Type" = Some "application/json" /\
    body (options ctx') = JSON_stringify (JSObject (removeNullishInObject newPosts)).
Proof.
  split; [reflexivity|]. split; [reflexivity|]. split; [reflexivity|].
  eexists. split; [reflexivity|]. split; [reflexivity|]. simpl.
  split; [reflexivity|]. split; [now rewrite lookup_insert_ne|].
  split; [apply lookup_insert_eq | reflexivity].
Qed.

(** X21. How the posts module treats what comes back. An ok response to
    reading one post passes when [postsSchema] accepts its data and is
    thrown as [TypeError("TYPE_ERROR")] otherwise; an ok response to
    listing passes when its data is an array of such posts. A failed
    response is never validated, and since no operation declares an error
    schema the error hook returns every context unchanged, a body that
    is not JSON included. *)
Theorem posts_responses (id : string) (actx : AfterFetchContext Z)
    (ectx : CustomFetchErrorCtx Z) :
  completion (afterFetch (fetch_config (getPost VITE_APP_API MODE JSON_parse id)) actx)
  = (if ok (response actx) && negb (success (safeParse postsSchema (data actx)))
     then Throw (TypeError "TYPE_ERROR") else Normal actx) /\
  completion (afterFetch (fetch_config (getPosts VITE_APP_API MODE JSON_parse)) actx)
  = (if ok (response actx)
        && negb (match data actx with
                 | JSArray items =>
                     forallb (fun item => success (safeParse postsSchema item)) items
                 | _ => false
                 end)
     then Throw (TypeError "TYPE_ERROR") else Normal actx) /\
  onFetchError (fetch_config (getPost VITE_APP_API MODE JSON_parse id)) ectx = ([], Normal ectx) /\
  onFetchError (fetch_config (getPosts VITE_APP_API MODE JSON_parse)) ectx = ([], Normal ectx).
Proof.
  split; [|split; [|split]].
  - unfold getPost, useApi. cbn [fetch_config afterFetch].
    rewrite getAfterFetch_completion. cbn [responseSchema errorResponseSchema].
    destruct (ok (response actx)); [|reflexivity].
    destruct (success (safeParse postsSchema (data actx))); reflexivity.
  - unfold getPosts, useApi. cbn [fetch_config afterFetch].
    rewrite getAfterFetch_completion. cbn [responseSchema errorResponseSchema].
    destruct (ok (response actx)); [|reflexivity].
    destruct (data actx) as [ | | b | n | s | items | props]; try reflexivity.
    rewrite zod_array_success.
    destruct (forallb _ items); reflexivity.
  - simpl. now rewrite getOnFetchError_spec.
  - simpl. now rewrite getOnFetchError_spec.
Qed.

End PostsFacts.

Lemma posts_empty_title_dropped_witness :
  success (safeParse postsSchema (JSObject (post "42" EmptyString 7))) = true /\
  exists ctx' : BeforeFetchContext,
    beforeFetch (fetch_config (postPosts "https://api.example" "production" JSON_parse_int
                                 (post "42" EmptyString 7))) (get_request "/posts")
    = ([], Normal ctx') /\
    beforeFetch (fetch_config (updatePosts "https://api.example" "production" JSON_parse_int
                                 "42" (post "42" EmptyString 7))) (get_request "/posts")
    = ([], Normal ctx') /\
    body (options ctx')
    = JSON_stringify (JSObject [("id", JSString "42"); ("views", JSNum 7%Z)]) /\
    safeParse postsSchema (JSObject [("id", JSString "42"); ("views", JSNum 7%Z)])
    = SafeParseError [ {| issue_path := ["title"]; issue_message := "Required" |} ].
Proof.
  apply (posts_empty_title_dropped "https://api.example" "production" JSON_parse_int
           "42" 7%Z (get_request "/posts")).
  discriminate.
Defined.

(** ** Folding steps *)

Lemma fetchCurryFn_app {T : Type} (l1 l2 : list (T -> Hook T)) :
  forall ctx : T,
    fetchCurryFn ctx (l1 ++ l2) = (acc ← fetchCurryFn ctx l1; fetchCurryFn acc l2).
Proof.
  induction l1 as [|f l1 IH]; intros ctx.
  - symmetry. exact (Hook_bind_ret ctx (fun acc => fetchCurryFn acc l2)).
  - change (fetchCurryFn ctx ((f :: l1) ++ l2))
      with (f ctx ≫= fun acc => fetchCurryFn acc (l1 ++ l2)).
    rewrite fetchCurryFn_cons, Hook_bind_assoc.
    apply Hook_bind_ext. intros a. apply IH.
Qed.

(** X22. Chains compose: folding two lists of steps one after the other
    is folding their concatenation. A step that does nothing can be put
    anywhere, and once a step has thrown, no later step runs: the chain
    ends with that exception and with the effects performed up to it. *)
Theorem fetchCurryFn_composes {T : Type} (l1 l2 : list (T -> Hook T)) (ctx : T) :
  fetchCurryFn ctx (l1 ++ l2) = (acc ← fetchCurryFn ctx l1; fetchCurryFn acc l2) /\
  fetchCurryFn ctx (l1 ++ noActionContext :: l2) = fetchCurryFn ctx (l1 ++ l2) /\
  match completion (fetchCurryFn ctx l1) with
  | Throw e => fetchCurryFn ctx (l1 ++ l2) = (effects (fetchCurryFn ctx l1), Throw e)
  | Normal acc =>
      effects (fetchCurryFn ctx (l1 ++ l2))
      = effects (fetchCurryFn ctx l1) ++ effects (fetchCurryFn acc l2)
  end.
Proof.
  split; [apply fetchCurryFn_app | split].
  - rewrite !fetchCurryFn_app. apply Hook_bind_ext. intros a.
    exact (Hook_bind_ret a (fun acc => fetchCurryFn acc l2)).
  - rewrite fetchCurryFn_app.
    destruct (fetchCurryFn ctx l1) as [t [acc|e]]; simpl; [|reflexivity].
    unfold mbind, Hook_bind. now destruct (fetchCurryFn acc l2).
Qed.
